(** * voice_medical_agent.py: the in-memory booking backend

    A shallow embedding of the domain logic of [voice_medical_agent.py]:
    the slot generator [_default_slots], and the three tools of
    [BookingAgent] ([check_insurance], [get_slots], [create_booking]) over
    the module globals [ACCEPTED_INSURERS], [SLOTS] and [BOOKINGS].

    Conventions.
    - A Python [str] is a [string]; each [ascii] stands for one code point
      below 256 (not for a byte of an encoding).
    - A naive [datetime] is the record of its seven fields, all in [Z].
    - The three tools are [async def] bodies without any [await]: the event
      loop runs each call to completion before the next one starts, so a
      run of the backend is a sequence of calls on one shared state. *)

From Stdlib Require Import ZArith Lia List Bool Ascii String Sorted.
From stdpp Require Import base option list sorting gmap strings.

Local Open Scope Z_scope.

(** ** Naive datetimes *)

Record datetime := mk_datetime {
  year : Z; month : Z; day : Z;
  hour : Z; minute : Z; second : Z; microsecond : Z
}.

Definition MINYEAR : Z := 1.
Definition MAXYEAR : Z := 9999.

Definition is_leap (y : Z) : bool :=
  (y mod 4 =? 0) && (negb (y mod 100 =? 0) || (y mod 400 =? 0)).

(** [_DAYS_IN_MONTH], with February corrected in leap years. *)
Definition days_in_month (y m : Z) : Z :=
  if (m =? 2) && is_leap y then 29
  else match m with
       | 1 => 31 | 2 => 28 | 3 => 31 | 4 => 30 | 5 => 31 | 6 => 30
       | 7 => 31 | 8 => 31 | 9 => 30 | 10 => 31 | 11 => 30 | 12 => 31
       | _ => 0
       end.

(** The values a [datetime] object can hold. *)
Definition valid_datetime (t : datetime) : Prop :=
  MINYEAR <= year t <= MAXYEAR /\
  1 <= month t <= 12 /\
  1 <= day t <= days_in_month (year t) (month t) /\
  0 <= hour t < 24 /\ 0 <= minute t < 60 /\ 0 <= second t < 60 /\
  0 <= microsecond t < 1000000.

Definition valid_datetimeb (t : datetime) : bool :=
  (MINYEAR <=? year t) && (year t <=? MAXYEAR) &&
  (1 <=? month t) && (month t <=? 12) &&
  (1 <=? day t) && (day t <=? days_in_month (year t) (month t)) &&
  (0 <=? hour t) && (hour t <? 24) &&
  (0 <=? minute t) && (minute t <? 60) &&
  (0 <=? second t) && (second t <? 60) &&
  (0 <=? microsecond t) && (microsecond t <? 1000000).

(** Proleptic Gregorian ordinal of a date, as [datetime.toordinal]:
    0001-01-01 is day 1. *)
Definition days_before_year (y : Z) : Z :=
  let p := y - 1 in p * 365 + p / 4 - p / 100 + p / 400.

Definition days_before_month (y m : Z) : Z :=
  match m with
  | 1 => 0 | 2 => 31 | 3 => 59 | 4 => 90 | 5 => 120 | 6 => 151
  | 7 => 181 | 8 => 212 | 9 => 243 | 10 => 273 | 11 => 304 | 12 => 334
  | _ => 0
  end + (if (2 <? m) && is_leap y then 1 else 0).

Definition toordinal (t : datetime) : Z :=
  days_before_year (year t) + days_before_month (year t) (month t) + day t.

Definition MAXORDINAL : Z := 3652059.

(** The same time of day on the next calendar day; [None] is the
    [OverflowError] past 9999-12-31. *)
Definition next_day (t : datetime) : option datetime :=
  if day t <? days_in_month (year t) (month t) then
    Some (mk_datetime (year t) (month t) (day t + 1)
                      (hour t) (minute t) (second t) (microsecond t))
  else if month t <? 12 then
    Some (mk_datetime (year t) (month t + 1) 1
                      (hour t) (minute t) (second t) (microsecond t))
  else if year t <? MAXYEAR then
    Some (mk_datetime (year t + 1) 1 1
                      (hour t) (minute t) (second t) (microsecond t))
  else None.

(** [t + timedelta(days=k)] for [k >= 0]: the date moves [k] days ahead
    and the time of day is kept. *)
Fixpoint add_days (t : datetime) (k : nat) : option datetime :=
  match k with
  | O => Some t
  | S k' => match next_day t with
            | Some t' => add_days t' k'
            | None => None
            end
  end.

(** [t.replace(hour=.., minute=.., second=.., microsecond=..)] *)
Definition replace_time (t : datetime) (hh mm ss us : Z) : datetime :=
  mk_datetime (year t) (month t) (day t) hh mm ss us.

(** [t.replace(hour=.., minute=..)] *)
Definition replace_hm (t : datetime) (hh mm : Z) : datetime :=
  mk_datetime (year t) (month t) (day t) hh mm (second t) (microsecond t).

(** Comparison of naive datetimes: lexicographic on the seven fields. *)
Definition dt_key (t : datetime) : list Z :=
  [year t; month t; day t; hour t; minute t; second t; microsecond t].

Fixpoint lex_ltb (a b : list Z) : bool :=
  match a, b with
  | x :: a', y :: b' => (x <? y) || ((x =? y) && lex_ltb a' b')
  | [], _ :: _ => true
  | _, [] => false
  end.

Definition dt_ltb (a b : datetime) : bool := lex_ltb (dt_key a) (dt_key b).

(** The calendar date alone. *)
Definition date_key (t : datetime) : list Z := [year t; month t; day t].
Definition date_ltb (a b : datetime) : bool := lex_ltb (date_key a) (date_key b).

(** ** ISO formatting *)

Definition digit (d : Z) : ascii := ascii_of_N (Z.to_N (48 + d)).

(** ["%02d" % n] for [0 <= n < 100] and ["%04d" % n] for [0 <= n < 10000],
    ["%06d" % n] for [0 <= n < 1000000]. *)
Definition pad2 (n : Z) : string :=
  String (digit (n / 10 mod 10)) (String (digit (n mod 10)) EmptyString).
Definition pad4 (n : Z) : string := pad2 (n / 100) +:+ pad2 (n mod 100).
Definition pad6 (n : Z) : string := pad2 (n / 10000) +:+ pad4 (n mod 10000).

(** [datetime.isoformat()] of a naive datetime: the fraction is printed
    only when [microsecond] is not zero. *)
Definition isoformat (t : datetime) : string :=
  pad4 (year t) +:+ "-" +:+ pad2 (month t) +:+ "-" +:+ pad2 (day t) +:+ "T" +:+
  pad2 (hour t) +:+ ":" +:+ pad2 (minute t) +:+ ":" +:+ pad2 (second t) +:+
  (if microsecond t =? 0 then EmptyString else "." +:+ pad6 (microsecond t)).

(** ** The in-memory backend *)

(** A slot dict [{"start_iso": .., "duration_min": ..}]. *)
Record slot := mk_slot { start_iso : string; duration_min : Z }.

(** A booking dict, with the keys of [create_booking]. *)
Record booking := mk_booking {
  b_id : string; b_name : string; b_phone : string;
  b_insurer : string; b_reason : string; b_slot_iso : string
}.

Definition ACCEPTED_INSURERS : gset string :=
  {[ "Aetna"; "Blue Cross"; "Cigna"; "Medicare" ]}%string.

Definition daily : list (Z * Z) := [(10, 0); (14, 30); (16, 0)].

(** The inner loop of [_default_slots]: one [slots.append] per entry of
    [daily]. *)
Definition day_slots (base : datetime) (slots : list slot) : list slot :=
  fold_left
    (fun acc hm =>
       let start := replace_hm base (fst hm) (snd hm) in
       acc ++ [mk_slot (isoformat start) 20])
    daily slots.

(** The outer loop over [range(n_days)]; [None] when the date addition
    overflows. *)
Fixpoint slots_loop (now : datetime) (ds : list nat) (slots : list slot)
  : option (list slot) :=
  match ds with
  | [] => Some slots
  | d :: ds' =>
      match add_days now (S d) with
      | None => None
      | Some t =>
          let base := replace_time t 0 0 0 0 in
          slots_loop now ds' (day_slots base slots)
      end
  end.

(** [_default_slots(n_days)], with the value of [datetime.now()] as an
    argument. *)
Definition _default_slots (now : datetime) (n_days : Z) : option (list slot) :=
  slots_loop now (seq 0 (Z.to_nat n_days)) [].

(** ** Strings *)

(** [str.isspace] on one code point below 256. *)
Definition isspace (c : ascii) : bool :=
  let n := N_of_ascii c in
  ((9 <=? n) && (n <=? 13) || (28 <=? n) && (n <=? 32) ||
   (n =? 133) || (n =? 160))%N.

Fixpoint lstrip (s : string) : string :=
  match s with
  | String c s' => if isspace c then lstrip s' else s
  | EmptyString => EmptyString
  end.

Fixpoint rstrip (s : string) : string :=
  match s with
  | String c s' =>
      match rstrip s' with
      | EmptyString => if isspace c then EmptyString else String c EmptyString
      | r => String c r
      end
  | EmptyString => EmptyString
  end.

(** [s.strip()] *)
Definition strip (s : string) : string := rstrip (lstrip s).

(** [s.startswith(p)] *)
Definition startswith (s p : string) : bool := String.prefix p s.

(** [c.upper()] on the ASCII letters; the other characters of a hex string
    are digits, which [str.upper] keeps. *)
Definition upper_char (c : ascii) : ascii :=
  let n := N_of_ascii c in
  if ((97 <=? n) && (n <=? 122))%N then ascii_of_N (n - 32) else c.

Fixpoint upper (s : string) : string :=
  match s with
  | String c s' => String (upper_char c) (upper s')
  | EmptyString => EmptyString
  end.

Definition hexdigit (d : Z) : ascii :=
  if d <? 10 then ascii_of_N (Z.to_N (48 + d)) else ascii_of_N (Z.to_N (87 + d)).

(** ['%0nx' % u], reading the [4 * n] low bits of [u]. *)
Fixpoint hex_fixed (n : nat) (u : Z) : string :=
  match n with
  | O => EmptyString
  | S n' => hex_fixed n' (u / 16) +:+ String (hexdigit (u mod 16)) EmptyString
  end.

(** [UUID.hex] of the UUID whose 128-bit integer is [u]. *)
Definition uuid_hex (u : Z) : string := hex_fixed 32 u.

(** ** Shared state and the tools *)

(** The module globals that the tools read and write, and the number of
    UUIDs drawn so far. *)
Record world := mk_world {
  SLOTS : list slot;
  BOOKINGS : list booking;
  drawn : nat
}.

(** A tool body: a computation on the shared state. *)
Definition tool (A : Type) : Type := world -> A * world.

Definition ret {A} (a : A) : tool A := fun w => (a, w).
Definition bind {A B} (m : tool A) (k : A -> tool B) : tool B :=
  fun w => let (a, w') := m w in k a w'.

Declare Scope tool_scope.
Delimit Scope tool_scope with tool.
Notation "'let*' x ':=' m 'in' k" := (bind m (fun x => k))
  (at level 10, x name, m at level 100, k at level 200) : tool_scope.
Notation "'do' m 'in' k" := (bind m (fun _ => k))
  (at level 10, m at level 100, k at level 200) : tool_scope.

Definition read_SLOTS : tool (list slot) := fun w => (SLOTS w, w).

(** [BOOKINGS.append(b)] *)
Definition BOOKINGS_append (b : booking) : tool unit :=
  fun w => (tt, mk_world (SLOTS w) (BOOKINGS w ++ [b]) (drawn w)).

(** The dict a tool returns from [create_booking]. *)
Inductive booking_reply :=
| Saved (confirmation_id : string)
| Error (error : string).

Section Backend.

(** The random source: [uuid4 k] is the 128-bit integer of the UUID that
    the [k]-th call of [uuid.uuid4()] returns. *)
Variable uuid4 : nat -> Z.

Definition draw_uuid4 : tool Z :=
  fun w => (uuid4 (drawn w), mk_world (SLOTS w) (BOOKINGS w) (S (drawn w))).

Local Open Scope tool_scope.

(** [{"accepted": insurer_name.strip() in ACCEPTED_INSURERS}] *)
Definition check_insurance (insurer_name : string) : tool bool :=
  let accepted := bool_decide (strip insurer_name ∈ ACCEPTED_INSURERS) in
  ret accepted.

(** [get_slots]; [date_pref] is falsy when it is [None] or the empty
    string, and [pref] is falsy when it is the empty list. *)
Definition get_slots (date_pref : option string) : tool (list slot) :=
  let* slots := read_SLOTS in
  match date_pref with
  | Some d =>
      if negb (String.eqb d EmptyString) then
        let pref := List.filter (fun s => startswith (start_iso s) d) slots in
        match pref with
        | _ :: _ => ret (firstn 3 pref)
        | [] => ret (firstn 6 slots)
        end
      else ret (firstn 6 slots)
  | None => ret (firstn 6 slots)
  end.

(** [uuid.uuid4().hex[:8].upper()] for the UUID of integer [u]. *)
Definition confirmation_of (u : Z) : string :=
  upper (substring 0 8 (uuid_hex u)).

Definition create_booking (name phone insurer reason slot_iso : string)
  : tool booking_reply :=
  let* slots := read_SLOTS in
  if bool_decide (slot_iso ∉ (list_to_set (map start_iso slots) : gset string))
  then ret (Error "slot_unavailable")
  else
    let* u := draw_uuid4 in
    let confirmation := confirmation_of u in
    do BOOKINGS_append
         (mk_booking confirmation name phone insurer reason slot_iso) in
    ret (Saved confirmation).

(** The calls the dialogue engine can make, and what they return. *)
Inductive call :=
| CheckInsurance (insurer_name : string)
| GetSlots (date_pref : option string)
| CreateBooking (name phone insurer reason slot_iso : string).

Inductive reply :=
| Accepted (accepted : bool)
| Slots (slots : list slot)
| Booking (r : booking_reply).

Definition invoke (c : call) : tool reply :=
  match c with
  | CheckInsurance n => let* a := check_insurance n in ret (Accepted a)
  | GetSlots d => let* s := get_slots d in ret (Slots s)
  | CreateBooking n p i r s =>
      let* b := create_booking n p i r s in ret (Booking b)
  end.

(** A run of the backend: the calls in the order the event loop serves
    them. *)
Fixpoint run (cs : list call) : tool (list reply) :=
  match cs with
  | [] => ret []
  | c :: cs' => let* r := invoke c in let* rs := run cs' in ret (r :: rs)
  end.

End Backend.

(** ** Sample data *)

Definition now0 : datetime := mk_datetime 2025 6 9 15 45 12 345678.
Definition SLOTS0 : list slot := default [] (_default_slots now0 3).
Definition w0 : world := mk_world SLOTS0 [] 0.

(** A source of distinct UUIDs, and one that repeats itself. *)
Definition fresh_source (k : nat) : Z :=
  0x3fa9c1d27b604e8e9a5d0c44f1e2b7a6 + Z.of_nat k * 2 ^ 100.
Definition stuck_source (k : nat) : Z :=
  0x3fa9c1d27b604e8e9a5d0c44f1e2b7a6.

Definition slot_a : string := "2025-06-10T10:00:00".
Definition slot_b : string := "2025-06-11T14:30:00".

(** The state after one booking of [slot_a]. *)
Definition w1 : world :=
  snd (create_booking fresh_source "Ann Lee" "5550100" "Cigna" "cough" slot_a w0).

(** A conversation with a rejected insurer, a malformed start and a slot
    booked twice. *)
Definition sample_calls : list call :=
  [CheckInsurance "Kaiser";
   CreateBooking "Ann Lee" "5550100" "Cigna" "cough" slot_a;
   GetSlots None;
   CreateBooking "Bo Ray" "5550101" "Aetna" "rash" "2025-06-10T10:00";
   CreateBooking "Cy Orr" "5550102" "Kaiser" "sprain" slot_a].

(** ** Counting in a run *)

Definition books (s : string) (c : call) : bool :=
  match c with
  | CreateBooking _ _ _ _ s' => String.eqb s' s
  | _ => false
  end.

Definition saved (r : reply) : bool :=
  match r with
  | Booking (Saved _) => true
  | _ => false
  end.

Definition refs_slot (s : string) (b : booking) : bool :=
  String.eqb (b_slot_iso b) s.

(** How many ledger entries reference the slot start [s]. *)
Definition bookings_for (s : string) (bs : list booking) : nat :=
  length (List.filter (refs_slot s) bs).

(** How many calls of a run ask to book the slot start [s]. *)
Definition calls_for (s : string) (cs : list call) : nat :=
  length (List.filter (books s) cs).

Definition catalog (w : world) : list string := map start_iso (SLOTS w).

(** ** Trimming, in the words of the specification *)

Fixpoint all_space (s : string) : bool :=
  match s with
  | String c s' => isspace c && all_space s'
  | EmptyString => true
  end.

Definition first_char (s : string) : option ascii :=
  match s with
  | String c _ => Some c
  | EmptyString => None
  end.

Fixpoint last_char (s : string) : option ascii :=
  match s with
  | String c EmptyString => Some c
  | String _ s' => last_char s'
  | EmptyString => None
  end.

Definition not_space (o : option ascii) : Prop :=
  forall c, o = Some c -> isspace c = false.

(** [t] is [s] with the surrounding whitespace trimmed: [s] is [t] between
    two runs of whitespace, and [t] neither begins nor ends with
    whitespace. *)
Definition trimmed (s t : string) : Prop :=
  exists l r,
    s = l +:+ t +:+ r /\ all_space l = true /\ all_space r = true /\
    not_space (first_char t) /\ not_space (last_char t).

(** The canonical entries of the registry. *)
Definition canonical_insurers : list string :=
  ["Aetna"; "Blue Cross"; "Cigna"; "Medicare"]%string.

(** ** Dates of slots *)

(** The date part [YYYY-MM-DD] of the ISO timestamp of a slot. *)
Definition slot_date (s : slot) : string := substring 0 10 (start_iso s).

(** A date preference is absent or a [YYYY-MM-DD] string, which has ten
    characters. *)
Definition is_date_pref (p : option string) : Prop :=
  match p with
  | Some d => String.length d = 10%nat
  | None => True
  end.

(** The slot falls on the preferred date. *)
Definition on_date (p : option string) (s : slot) : bool :=
  match p with
  | Some d => String.eqb (slot_date s) d
  | None => false
  end.

(** [isoformat] of the date alone. *)
Definition isodate (t : datetime) : string :=
  pad4 (year t) +:+ "-" +:+ pad2 (month t) +:+ "-" +:+ pad2 (day t).

(** ** The generated catalog, day by day *)

(** The start of the slot of day [t] at the time of day [hm]. *)
Definition slot_start (t : datetime) (hm : Z * Z) : datetime :=
  replace_hm (replace_time t 0 0 0 0) (fst hm) (snd hm).

(** The slots of day [t], in the order of [daily]. *)
Definition block (t : datetime) : list slot :=
  map (fun hm => mk_slot (isoformat (slot_start t hm)) 20) daily.

(** Python's [<] on the [start_iso] strings of two slots. *)
Definition slot_before (a b : slot) : Prop :=
  String.ltb (start_iso a) (start_iso b) = true.

(** ** Orders on datetimes, as propositions *)

Definition date_lt (a b : datetime) : Prop :=
  year a < year b \/
  year a = year b /\ (month a < month b \/ month a = month b /\ day a < day b).

Definition same_date (a b : datetime) : Prop :=
  year a = year b /\ month a = month b /\ day a = day b.

Definition same_time (a b : datetime) : Prop :=
  hour a = hour b /\ minute a = minute b /\ second a = second b /\
  microsecond a = microsecond b.

Definition dt_lt (a b : datetime) : Prop :=
  date_lt a b \/
  same_date a b /\
  (hour a < hour b \/
   hour a = hour b /\
   (minute a < minute b \/
    minute a = minute b /\
    (second a < second b \/
     second a = second b /\ microsecond a < microsecond b))).

(** The days a window of [n] days starting [a] days ahead runs through. *)
Definition window (now : datetime) (a n : nat) (ts : list datetime) : Prop :=
  Forall2 (fun d t => add_days now (S d) = Some t /\ valid_datetime t /\
                      toordinal t = toordinal now + Z.of_nat d + 1)
          (seq a n) ts.

(** What [_default_slots] promises of the start of a slot: it is a
    datetime [d + 1] calendar days after the day of [now], at the time of
    day [hm] sharp, and later than [now]. *)
Definition generated_start (now start : datetime) (d : nat) (hm : Z * Z)
  : Prop :=
  valid_datetime start /\
  toordinal start = toordinal now + Z.of_nat d + 1 /\
  hour start = fst hm /\ minute start = snd hm /\
  second start = 0 /\ microsecond start = 0 /\
  date_lt now start /\ dt_lt now start.

(** Three-way lexicographic comparison of field lists. *)
Fixpoint lex_compare (a b : list Z) : comparison :=
  match a, b with
  | x :: a', y :: b' =>
      match x ?= y with
      | Eq => lex_compare a' b'
      | o => o
      end
  | [], [] => Eq
  | [], _ :: _ => Lt
  | _ :: _, [] => Gt
  end.

(** ** Confirmation ids, digit by digit *)

(** The upper-case hex digit of [d]. *)
Definition HEXdigit (d : Z) : ascii :=
  if d <? 10 then ascii_of_N (Z.to_N (48 + d)) else ascii_of_N (Z.to_N (55 + d)).

(** ['%0nX' % u], reading the [4 * n] low bits of [u]. *)
Fixpoint HEX_fixed (n : nat) (u : Z) : string :=
  match n with
  | O => EmptyString
  | S n' => HEX_fixed n' (u / 16) +:+ String (HEXdigit (u mod 16)) EmptyString
  end.

(** One of [0-9A-F]. *)
Definition is_upper_hex (c : ascii) : bool :=
  let n := N_of_ascii c in
  ((48 <=? n) && (n <=? 57) || (65 <=? n) && (n <=? 70))%N.

Fixpoint string_forallb (f : ascii -> bool) (s : string) : bool :=
  match s with
  | String c s' => f c && string_forallb f s'
  | EmptyString => true
  end.

(** The confirmation ids that a list of replies hands out, in order. *)
Definition confirmations (rs : list reply) : list string :=
  omap (fun r => match r with
                 | Booking (Saved c) => Some c
                 | _ => None
                 end) rs.

(** * Properties *)

(** ** Calendar facts *)

Lemma month_cases m :
  1 <= m <= 12 ->
  m = 1 \/ m = 2 \/ m = 3 \/ m = 4 \/ m = 5 \/ m = 6 \/
  m = 7 \/ m = 8 \/ m = 9 \/ m = 10 \/ m = 11 \/ m = 12.
Proof. lia. Qed.

(** One case for each month of the year. *)
Tactic Notation "by_month" constr(H) "as" ident(E) :=
  destruct (month_cases _ H)
    as [E|[E|[E|[E|[E|[E|[E|[E|[E|[E|[E|E]]]]]]]]]]].

Section CalendarFacts.

Lemma is_leap_spec y :
  is_leap y = true <-> y mod 4 = 0 /\ (y mod 100 <> 0 \/ y mod 400 = 0).
Proof.
  unfold is_leap.
  rewrite andb_true_iff, orb_true_iff, negb_true_iff, !Z.eqb_eq, Z.eqb_neq.
  tauto.
Qed.

Lemma days_before_year_succ y :
  days_before_year (y + 1) =
  days_before_year y + 365 + (if is_leap y then 1 else 0).
Proof.
  unfold days_before_year; cbn zeta.
  replace (y + 1 - 1) with y by lia.
  destruct (is_leap y) eqn:E.
  - apply is_leap_spec in E. Z.to_euclidean_division_equations. lia.
  - assert (H : ~ (y mod 4 = 0 /\ (y mod 100 <> 0 \/ y mod 400 = 0))).
    { rewrite <- is_leap_spec, E. discriminate. }
    Z.to_euclidean_division_equations. lia.
Qed.

Lemma valid_datetimeb_spec t : valid_datetimeb t = true <-> valid_datetime t.
Proof.
  unfold valid_datetimeb, valid_datetime.
  rewrite !andb_true_iff, !Z.leb_le, !Z.ltb_lt. tauto.
Qed.

Lemma lex_ltb_cons x y a b :
  lex_ltb (x :: a) (y :: b) = true <-> x < y \/ x = y /\ lex_ltb a b = true.
Proof.
  simpl. rewrite orb_true_iff, andb_true_iff, Z.ltb_lt, Z.eqb_eq. tauto.
Qed.

Lemma lex_ltb_nil : lex_ltb [] [] = true <-> False.
Proof. simpl. split; [discriminate | tauto]. Qed.

Lemma date_ltb_spec a b : date_ltb a b = true <-> date_lt a b.
Proof.
  unfold date_ltb, date_key, date_lt.
  repeat setoid_rewrite lex_ltb_cons. rewrite lex_ltb_nil. tauto.
Qed.

Lemma dt_ltb_spec a b : dt_ltb a b = true <-> dt_lt a b.
Proof.
  unfold dt_ltb, dt_key, dt_lt, date_lt, same_date.
  repeat setoid_rewrite lex_ltb_cons. rewrite lex_ltb_nil. intuition lia.
Qed.

Lemma date_lt_trans a b c : date_lt a b -> date_lt b c -> date_lt a c.
Proof. unfold date_lt. lia. Qed.

(** The next day is a day of the calendar, one ordinal further, later in
    the order of dates, with the time of day unchanged. *)
Lemma next_day_Some t t' :
  valid_datetime t -> next_day t = Some t' ->
  valid_datetime t' /\ toordinal t' = toordinal t + 1 /\
  date_lt t t' /\ same_time t t'.
Proof.
  unfold valid_datetime, next_day, toordinal, date_lt, same_time, MINYEAR, MAXYEAR.
  intros (Hy & Hm & Hd & Hh & Hmi & Hs & Hus).
  destruct (Z.ltb_spec (day t) (days_in_month (year t) (month t))) as [Hlt|Hge].
  { intros [= <-]; simpl. repeat split; lia. }
  destruct (Z.ltb_spec (month t) 12) as [Hm12|Hm12].
  { intros [= <-]; simpl.
    assert (Hdim : days_before_month (year t) (month t + 1) =
                   days_before_month (year t) (month t)
                   + days_in_month (year t) (month t)
                   /\ 1 <= days_in_month (year t) (month t + 1)).
    { unfold days_before_month, days_in_month.
      by_month Hm as E;
        rewrite E; simpl; destruct (is_leap (year t)); simpl; lia. }
    repeat split; lia. }
  destruct (Z.ltb_spec (year t) 9999) as [Hy9|Hy9]; [|discriminate].
  intros [= <-]; simpl.
  assert (E : month t = 12) by lia. rewrite E in *.
  rewrite days_before_year_succ.
  unfold days_before_month, days_in_month in *. simpl in *.
  destruct (is_leap (year t)); simpl; repeat split; lia.
Qed.

Lemma toordinal_MAX t :
  valid_datetime t -> next_day t = None -> toordinal t = MAXORDINAL.
Proof.
  unfold valid_datetime, next_day, toordinal, MINYEAR, MAXYEAR.
  intros (Hy & Hm & Hd & _).
  destruct (Z.ltb_spec (day t) (days_in_month (year t) (month t))); [discriminate|].
  destruct (Z.ltb_spec (month t) 12); [discriminate|].
  destruct (Z.ltb_spec (year t) 9999); [discriminate|]. intros _.
  assert (Ey : year t = 9999) by lia. assert (Em : month t = 12) by lia.
  rewrite Ey, Em in Hd, H |- *.
  change (days_in_month 9999 12) with 31 in Hd, H.
  assert (Ed : day t = 31) by lia.
  rewrite Ed. reflexivity.
Qed.

Lemma toordinal_le_MAX t : valid_datetime t -> toordinal t <= MAXORDINAL.
Proof.
  unfold valid_datetime, toordinal, MINYEAR, MAXYEAR, MAXORDINAL.
  intros (Hy & Hm & Hd & _).
  assert (Hin : days_before_month (year t) (month t) + day t
                <= 365 + (if is_leap (year t) then 1 else 0)).
  { revert Hd. unfold days_before_month, days_in_month.
    by_month Hm as E;
      rewrite E; simpl; destruct (is_leap (year t)); simpl; lia. }
  pose proof (days_before_year_succ (year t)) as Hs.
  assert (Hb : days_before_year (year t + 1) <= 3652059).
  { unfold days_before_year; cbn zeta. Z.to_euclidean_division_equations. lia. }
  lia.
Qed.

Lemma add_days_succ t k :
  add_days t (S k) =
  match add_days t k with Some t' => next_day t' | None => None end.
Proof.
  revert t. induction k as [|k IH]; intros t.
  - simpl. destruct (next_day t); reflexivity.
  - change (add_days t (S (S k))) with
      (match next_day t with Some t' => add_days t' (S k) | None => None end).
    change (add_days t (S k)) with
      (match next_day t with Some t' => add_days t' k | None => None end).
    destruct (next_day t) as [t1|]; [apply IH | reflexivity].
Qed.

(** [t + timedelta(days=k)] is defined as long as the ordinal stays in
    range, and is then the calendar day [k] ordinals further. *)
Lemma add_days_Some t k :
  valid_datetime t -> toordinal t + Z.of_nat k <= MAXORDINAL ->
  exists t', add_days t k = Some t' /\ valid_datetime t' /\
             toordinal t' = toordinal t + Z.of_nat k /\ same_time t t' /\
             (k <> O -> date_lt t t').
Proof.
  revert t. induction k as [|k IH]; intros t Hv Hk.
  - exists t. split; [reflexivity|]. split; [exact Hv|]. split; [lia|].
    split; [unfold same_time; tauto|].
    intros H. exfalso. apply H. reflexivity.
  - simpl. destruct (next_day t) as [t1|] eqn:E.
    + destruct (next_day_Some _ _ Hv E) as (Hv1 & Ho1 & Hlt1 & Hst1).
      destruct (IH t1 Hv1) as (t' & Ht' & Hv' & Ho' & Hst' & Hlt'); [lia|].
      exists t'. split; [exact Ht'|]. split; [exact Hv'|]. split; [lia|].
      split; [unfold same_time in *; lia|].
      intros _. destruct k as [|k'].
      * simpl in Ht'. injection Ht' as <-. exact Hlt1.
      * eapply date_lt_trans; [exact Hlt1 | apply Hlt'; discriminate].
    + apply toordinal_MAX in E; [lia | exact Hv].
Qed.

Lemma add_days_None t k :
  valid_datetime t -> MAXORDINAL < toordinal t + Z.of_nat k ->
  add_days t k = None.
Proof.
  revert t. induction k as [|k IH]; intros t Hv Hk.
  - pose proof (toordinal_le_MAX _ Hv). lia.
  - simpl. destruct (next_day t) as [t1|] eqn:E; [|reflexivity].
    destruct (next_day_Some _ _ Hv E) as (Hv1 & Ho1 & _).
    apply IH; [exact Hv1 | lia].
Qed.

Lemma days_before_year_mono y y' :
  y <= y' -> days_before_year y <= days_before_year y'.
Proof.
  intros H. unfold days_before_year; cbn zeta.
  Z.to_euclidean_division_equations. lia.
Qed.

Lemma days_before_month_succ y m :
  1 <= m < 12 ->
  days_before_month y (m + 1) = days_before_month y m + days_in_month y m.
Proof.
  intros Hm. unfold days_before_month, days_in_month.
  assert (Hr : 1 <= m <= 12) by lia.
  by_month Hr as E;
    rewrite E in *; simpl; destruct (is_leap y); simpl; lia.
Qed.

Lemma days_before_month_mono y m m' :
  1 <= m -> m <= m' -> m' <= 12 ->
  days_before_month y m <= days_before_month y m'.
Proof.
  intros H1 H2 H3. unfold days_before_month.
  assert (Hr : 1 <= m <= 12) by lia. assert (Hr' : 1 <= m' <= 12) by lia.
  by_month Hr as E;
    rewrite E in *; simpl; destruct (is_leap y); simpl;
    by_month Hr' as F;
    rewrite F in *; simpl; lia.
Qed.

Lemma year_length y m d :
  1 <= m <= 12 -> 1 <= d <= days_in_month y m ->
  0 <= days_before_month y m /\
  days_before_month y m + d <= 365 + (if is_leap y then 1 else 0).
Proof.
  intros Hm. unfold days_before_month, days_in_month.
  by_month Hm as E;
    rewrite E; simpl; destruct (is_leap y); simpl; lia.
Qed.

(** The ordinal grows with the date. *)
Lemma date_lt_toordinal a b :
  valid_datetime a -> valid_datetime b -> date_lt a b ->
  toordinal a < toordinal b.
Proof.
  unfold valid_datetime, date_lt, toordinal.
  intros (_ & Hm & Hd & _) (_ & Hm' & Hd' & _) [Hy|[Ey [Hlt|[Em Hlt]]]].
  - pose proof (year_length _ _ _ Hm Hd). pose proof (year_length _ _ _ Hm' Hd').
    pose proof (days_before_year_succ (year a)).
    pose proof (days_before_year_mono (year a + 1) (year b)). lia.
  - rewrite Ey in *.
    pose proof (days_before_month_succ (year b) (month a)).
    pose proof (days_before_month_mono (year b) (month a + 1) (month b)). lia.
  - rewrite Ey, Em in *. lia.
Qed.

Lemma toordinal_lt_date a b :
  valid_datetime a -> valid_datetime b -> toordinal a < toordinal b ->
  date_lt a b.
Proof.
  intros Va Vb Hlt.
  assert (T : date_lt a b \/ same_date a b \/ date_lt b a).
  { unfold date_lt, same_date. lia. }
  destruct T as [H|[H|H]]; [exact H| |].
  - unfold same_date in H. unfold toordinal in Hlt.
    destruct H as (E1 & E2 & E3). rewrite E1, E2, E3 in Hlt. lia.
  - apply date_lt_toordinal in H; [lia | exact Vb | exact Va].
Qed.

(** Two dates with the same ordinal are the same date. *)
Lemma toordinal_inj a b :
  valid_datetime a -> valid_datetime b -> toordinal a = toordinal b ->
  same_date a b.
Proof.
  intros Va Vb E.
  assert (T : date_lt a b \/ same_date a b \/ date_lt b a).
  { unfold date_lt, same_date. lia. }
  destruct T as [H|[H|H]]; [|exact H|];
    apply date_lt_toordinal in H; try assumption; lia.
Qed.

End CalendarFacts.

(** ** Formatting facts *)

Section FormatFacts.

Lemma compare_append a a' b b' :
  String.length a = String.length a' ->
  String.compare (a +:+ b) (a' +:+ b') =
  match String.compare a a' with
  | Eq => String.compare b b'
  | o => o
  end.
Proof.
  revert a'. induction a as [|c a IH]; intros [|c' a'] Hl;
    try discriminate Hl; [reflexivity|].
  simpl. destruct (Ascii.compare c c'); try reflexivity.
  apply IH. now injection Hl.
Qed.

Lemma compare_refl s : String.compare s s = Eq.
Proof.
  induction s as [|c s IH]; [reflexivity|]. simpl.
  unfold Ascii.compare. now rewrite N.compare_refl.
Qed.

Lemma digit_compare x y :
  0 <= x < 10 -> 0 <= y < 10 -> Ascii.compare (digit x) (digit y) = (x ?= y).
Proof.
  intros Hx Hy. unfold Ascii.compare, digit.
  rewrite !N_ascii_embedding by lia.
  rewrite Z2N.inj_compare by lia. apply Z.add_compare_mono_l.
Qed.

Lemma pad2_compare x y :
  0 <= x < 100 -> 0 <= y < 100 ->
  String.compare (pad2 x) (pad2 y) = (x ?= y).
Proof.
  intros Hx Hy. unfold pad2. simpl.
  rewrite !digit_compare by (Z.to_euclidean_division_equations; lia).
  symmetry.
  destruct (Z.compare_spec (x / 10 mod 10) (y / 10 mod 10)) as [E|E|E].
  - destruct (Z.compare_spec (x mod 10) (y mod 10)) as [E'|E'|E'].
    + apply Z.compare_eq_iff. Z.to_euclidean_division_equations. lia.
    + apply Z.compare_lt_iff. Z.to_euclidean_division_equations. lia.
    + apply Z.compare_gt_iff. Z.to_euclidean_division_equations. lia.
  - apply Z.compare_lt_iff. Z.to_euclidean_division_equations. lia.
  - apply Z.compare_gt_iff. Z.to_euclidean_division_equations. lia.
Qed.

Lemma pad2_length x : String.length (pad2 x) = 2%nat.
Proof. reflexivity. Qed.

Lemma pad4_length x : String.length (pad4 x) = 4%nat.
Proof. reflexivity. Qed.

Lemma pad4_compare x y :
  0 <= x < 10000 -> 0 <= y < 10000 ->
  String.compare (pad4 x) (pad4 y) = (x ?= y).
Proof.
  intros Hx Hy. unfold pad4.
  rewrite compare_append by reflexivity.
  rewrite !pad2_compare by (Z.to_euclidean_division_equations; lia).
  symmetry.
  destruct (Z.compare_spec (x / 100) (y / 100)) as [E|E|E].
  - destruct (Z.compare_spec (x mod 100) (y mod 100)) as [E'|E'|E'].
    + apply Z.compare_eq_iff. Z.to_euclidean_division_equations. lia.
    + apply Z.compare_lt_iff. Z.to_euclidean_division_equations. lia.
    + apply Z.compare_gt_iff. Z.to_euclidean_division_equations. lia.
  - apply Z.compare_lt_iff. Z.to_euclidean_division_equations. lia.
  - apply Z.compare_gt_iff. Z.to_euclidean_division_equations. lia.
Qed.

Lemma compare_sep c a b :
  String.compare (String c EmptyString +:+ a) (String c EmptyString +:+ b)
  = String.compare a b.
Proof. simpl. unfold Ascii.compare. now rewrite N.compare_refl. Qed.

(** On datetimes without a fraction, comparing the ISO strings as Python
    compares [str] values is comparing the datetimes. *)
Lemma isoformat_compare a b :
  valid_datetime a -> valid_datetime b ->
  microsecond a = 0 -> microsecond b = 0 ->
  String.compare (isoformat a) (isoformat b) = lex_compare (dt_key a) (dt_key b).
Proof.
  unfold valid_datetime, MINYEAR, MAXYEAR.
  intros (Hy & Hm & Hd & Hh & Hmi & Hs & _) (Hy' & Hm' & Hd' & Hh' & Hmi' & Hs' & _)
         Ea Eb.
  assert (Hdim : forall y m, 1 <= m <= 12 -> days_in_month y m <= 31).
  { intros y m Hr. unfold days_in_month.
    by_month Hr as E;
      rewrite E; simpl; destruct (is_leap y); simpl; lia. }
  pose proof (Hdim (year a) (month a) Hm).
  pose proof (Hdim (year b) (month b) Hm').
  unfold isoformat, dt_key. rewrite Ea, Eb. cbn [lex_compare].
  rewrite compare_append, pad4_compare by (reflexivity || lia).
  destruct (year a ?= year b); try reflexivity. rewrite compare_sep.
  rewrite compare_append, pad2_compare by (reflexivity || lia).
  destruct (month a ?= month b); try reflexivity. rewrite compare_sep.
  rewrite compare_append, pad2_compare by (reflexivity || lia).
  destruct (day a ?= day b); try reflexivity. rewrite compare_sep.
  rewrite compare_append, pad2_compare by (reflexivity || lia).
  destruct (hour a ?= hour b); try reflexivity. rewrite compare_sep.
  rewrite compare_append, pad2_compare by (reflexivity || lia).
  destruct (minute a ?= minute b); try reflexivity. rewrite compare_sep.
  rewrite compare_append, pad2_compare by (reflexivity || lia).
  destruct (second a ?= second b); reflexivity.
Qed.

Lemma lex_compare_Lt a b :
  length a = length b -> (lex_compare a b = Lt <-> lex_ltb a b = true).
Proof.
  revert b. induction a as [|x a IH]; intros [|y b] Hl; try discriminate Hl.
  - simpl. split; discriminate.
  - simpl. injection Hl as Hl. specialize (IH b Hl).
    destruct (Z.compare_spec x y) as [E|E|E].
    + subst. rewrite Z.ltb_irrefl, Z.eqb_refl. simpl. exact IH.
    + apply Z.ltb_lt in E. rewrite E. simpl. tauto.
    + assert (H1 : (x <? y) = false) by (apply Z.ltb_ge; lia).
      assert (H2 : (x =? y) = false) by (apply Z.eqb_neq; lia).
      rewrite H1, H2. simpl. split; discriminate.
Qed.

Lemma isoformat_ltb a b :
  valid_datetime a -> valid_datetime b ->
  microsecond a = 0 -> microsecond b = 0 ->
  dt_lt a b -> String.ltb (isoformat a) (isoformat b) = true.
Proof.
  intros Va Vb Ea Eb Hlt. unfold String.ltb.
  rewrite (isoformat_compare _ _ Va Vb Ea Eb).
  apply dt_ltb_spec in Hlt. unfold dt_ltb in Hlt.
  apply lex_compare_Lt in Hlt; [now rewrite Hlt | reflexivity].
Qed.

End FormatFacts.

(** ** The slot generator *)

Section GeneratorFacts.

Lemma day_slots_block t slots :
  day_slots (replace_time t 0 0 0 0) slots = slots ++ block t.
Proof.
  unfold day_slots, block, slot_start, daily. simpl.
  now rewrite <- !app_assoc.
Qed.

Lemma slots_loop_seq now a n acc :
  valid_datetime now ->
  toordinal now + Z.of_nat (a + n) <= MAXORDINAL ->
  exists ts, window now a n ts /\
             slots_loop now (seq a n) acc = Some (acc ++ flat_map block ts).
Proof.
  intros Hv. revert a acc. induction n as [|n IH]; intros a acc Hk.
  - exists []. split; [constructor|]. simpl. now rewrite app_nil_r.
  - destruct (add_days_Some now (S a) Hv) as (t & Ht & Vt & Ot & _); [lia|].
    destruct (IH (S a) (acc ++ block t)) as (ts & Hw & Hs); [lia|].
    exists (t :: ts). split.
    + constructor; [|exact Hw]. split; [exact Ht|]. split; [exact Vt|]. lia.
    + cbn [seq slots_loop]. rewrite Ht, day_slots_block, Hs.
      simpl. now rewrite <- app_assoc.
Qed.

Lemma slots_loop_overflow now a n acc :
  valid_datetime now -> n <> O ->
  MAXORDINAL < toordinal now + Z.of_nat (a + n) ->
  slots_loop now (seq a n) acc = None.
Proof.
  intros Hv. revert a acc. induction n as [|n IH]; intros a acc Hn Hk.
  - congruence.
  - cbn [seq slots_loop].
    destruct (add_days now (S a)) as [t|] eqn:E; [|reflexivity].
    destruct n as [|n'].
    + rewrite add_days_None in E; [discriminate | exact Hv | lia].
    + apply IH; [discriminate | lia].
Qed.

Lemma daily_cases hm :
  hm ∈ daily -> hm = (10, 0) \/ hm = (14, 30) \/ hm = (16, 0).
Proof.
  unfold daily. rewrite !elem_of_cons, elem_of_nil. tauto.
Qed.

Lemma slot_start_valid t hm :
  valid_datetime t -> hm ∈ daily -> valid_datetime (slot_start t hm).
Proof.
  intros Vt Hhm. unfold valid_datetime in *. unfold slot_start; simpl.
  destruct (daily_cases _ Hhm) as [-> | [-> | ->]]; simpl; intuition lia.
Qed.

Lemma slot_date_isoformat t k :
  slot_date (mk_slot (isoformat t) k) = isodate t.
Proof. reflexivity. Qed.

Lemma slot_start_generated now t d hm :
  valid_datetime now -> valid_datetime t ->
  toordinal t = toordinal now + Z.of_nat d + 1 ->
  hm ∈ daily ->
  generated_start now (slot_start t hm) d hm.
Proof.
  intros Vn Vt Ot Hhm.
  assert (Hlt : date_lt now t) by (apply toordinal_lt_date; [assumption..|lia]).
  assert (Vs : valid_datetime (slot_start t hm)) by now apply slot_start_valid.
  unfold generated_start. split; [exact Vs|].
  split; [exact Ot|]. do 4 (split; [reflexivity|]).
  assert (Hd : date_lt now (slot_start t hm)) by exact Hlt.
  split; [exact Hd | left; exact Hd].
Qed.

Lemma block_elem s t :
  s ∈ block t <->
  exists hm, hm ∈ daily /\ s = mk_slot (isoformat (slot_start t hm)) 20.
Proof.
  unfold block. rewrite list_elem_of_fmap. split.
  - intros (hm & -> & H). eauto.
  - intros (hm & H & ->). eauto.
Qed.

Lemma block_sorted t : valid_datetime t -> StronglySorted slot_before (block t).
Proof.
  intros Vt.
  assert (V : forall hm, hm ∈ daily -> valid_datetime (slot_start t hm))
    by (intros hm; now apply slot_start_valid).
  assert (V1 := V (10, 0)). assert (V2 := V (14, 30)). assert (V3 := V (16, 0)).
  unfold daily in V1, V2, V3.
  assert (L : forall h m h' m', h < h' ->
            valid_datetime (slot_start t (h, m)) ->
            valid_datetime (slot_start t (h', m')) ->
            slot_before (mk_slot (isoformat (slot_start t (h, m))) 20)
                        (mk_slot (isoformat (slot_start t (h', m'))) 20)).
  { intros h m h' m' Hh Va Vb. unfold slot_before; simpl.
    apply isoformat_ltb; try assumption; try reflexivity.
    right. unfold same_date; simpl. split; [tauto | lia]. }
  unfold block, daily; simpl.
  repeat constructor; apply L; try lia;
    first [apply V1 | apply V2 | apply V3];
    rewrite !elem_of_cons; tauto.
Qed.

Lemma blocks_sorted ts :
  Forall valid_datetime ts ->
  StronglySorted (fun a b => toordinal a < toordinal b) ts ->
  StronglySorted slot_before (flat_map block ts).
Proof.
  intros Hv Hs. induction Hs as [|t ts Hs IH Hall]; [constructor|].
  apply Forall_cons in Hv as [Vt Vts]. cbn [flat_map].
  apply StronglySorted_app. split; [|split; [apply block_sorted, Vt | apply IH, Vts]].
  intros x y Hx Hy.
  apply block_elem in Hx as (hm & Hhm & ->).
  apply list_elem_of_In, in_flat_map in Hy as (t' & Ht' & Hy).
  apply list_elem_of_In in Ht', Hy.
  apply block_elem in Hy as (hm' & Hhm' & ->).
  assert (Vt' : valid_datetime t') by (rewrite Forall_forall in Vts; auto).
  assert (Ho : toordinal t < toordinal t') by (rewrite Forall_forall in Hall; auto).
  unfold slot_before; simpl.
  assert (Va : valid_datetime (slot_start t hm)) by now apply slot_start_valid.
  assert (Vb : valid_datetime (slot_start t' hm')) by now apply slot_start_valid.
  apply isoformat_ltb; try assumption; try reflexivity.
  left. apply (toordinal_lt_date t t' Vt Vt' Ho).
Qed.

Lemma window_bounds now a n ts :
  window now a n ts ->
  Forall (fun t => valid_datetime t /\
                   toordinal now + Z.of_nat a + 1 <= toordinal t) ts.
Proof.
  unfold window. revert a ts. induction n as [|n IH]; intros a ts H.
  - inversion H. constructor.
  - simpl in H. inversion H as [|d t l ts' (Ht & Vt & Ot) Hrest]; subst.
    constructor; [split; [exact Vt | lia]|].
    apply IH in Hrest. eapply Forall_impl; [exact Hrest|].
    simpl. intros t' [V' O']. split; [exact V' | lia].
Qed.

Lemma window_sorted now a n ts :
  window now a n ts ->
  Forall valid_datetime ts /\
  StronglySorted (fun a b => toordinal a < toordinal b) ts.
Proof.
  revert a ts. induction n as [|n IH]; intros a ts H.
  - inversion H. split; constructor.
  - unfold window in H. simpl in H.
    inversion H as [|d t l ts' (Ht & Vt & Ot) Hrest]; subst.
    destruct (IH _ _ Hrest) as [Hv Hs].
    split; [constructor; assumption|]. constructor; [exact Hs|].
    apply window_bounds in Hrest. eapply Forall_impl; [exact Hrest|].
    simpl. intros t' [_ O']. lia.
Qed.

(** The generated catalog is in ascending order of [start_iso]. *)
Lemma default_slots_sorted now n_days slots :
  valid_datetime now -> _default_slots now n_days = Some slots ->
  StronglySorted slot_before slots.
Proof.
  intros Vn H. unfold _default_slots in H.
  destruct (Z_le_gt_dec (toordinal now + Z.of_nat (0 + Z.to_nat n_days)) MAXORDINAL)
    as [Hle|Hgt].
  - destruct (slots_loop_seq now 0 (Z.to_nat n_days) [] Vn Hle) as (ts & Hw & Hs).
    rewrite Hs in H. injection H as <-. simpl.
    apply window_sorted in Hw as [Hv Hso]. now apply blocks_sorted.
  - destruct (Z.to_nat n_days) as [|k] eqn:E.
    + simpl in H. injection H as <-. constructor.
    + rewrite slots_loop_overflow in H; [discriminate | exact Vn | discriminate | lia].
Qed.

Lemma flat_map_block_length ts :
  length (flat_map block ts) = (3 * length ts)%nat.
Proof. induction ts as [|t ts IH]; simpl; lia. Qed.

Lemma flat_map_block_lookup ts (d j : nat) t :
  ts !! d = Some t -> (j < 3)%nat ->
  flat_map block ts !! (3 * d + j)%nat = block t !! j.
Proof.
  revert d. induction ts as [|t0 ts IH]; intros d Hd Hj.
  - destruct d; discriminate Hd.
  - destruct d as [|d]; cbn [flat_map].
    + simpl in Hd. injection Hd as ->.
      rewrite lookup_app_l by (simpl; lia). f_equal; lia.
    + simpl in Hd. rewrite lookup_app_r by (simpl; lia).
      replace (3 * S d + j - length (block t0))%nat with (3 * d + j)%nat
        by (simpl; lia).
      now apply IH.
Qed.

Lemma window_lookup now n ts (d : nat) :
  window now 0 n ts -> (d < n)%nat ->
  exists t, ts !! d = Some t /\ valid_datetime t /\
            toordinal t = toordinal now + Z.of_nat d + 1.
Proof.
  intros Hw Hd.
  assert (Hseq : seq 0 n !! d = Some d) by (now rewrite lookup_seq_lt).
  destruct (Forall2_lookup_l _ _ _ _ _ Hw Hseq) as (t & Ht & _ & Vt & Ot).
  eauto.
Qed.

Lemma window_elem now n ts t :
  window now 0 n ts -> t ∈ ts ->
  exists d : nat, (d < n)%nat /\ valid_datetime t /\
                  toordinal t = toordinal now + Z.of_nat d + 1.
Proof.
  intros Hw Ht. apply list_elem_of_lookup in Ht as [i Hi].
  destruct (Forall2_lookup_r _ _ _ _ _ Hw Hi) as (d & Hd & _ & Vt & Ot).
  apply lookup_seq in Hd as [-> Hlt]. exists i. auto.
Qed.

(** C5. [_default_slots] is a function of the value of [now] and of the
    table [daily]. As long as the last day of the window is a date that a
    [datetime] can hold, it returns three slots for each of the [n_days]
    days: slot [3 * d + j] starts [d + 1] calendar days after the day of
    [now], so tomorrow at the earliest, at the [j]-th time of
    [(10, 0); (14, 30); (16, 0)] sharp; it lasts 20 minutes and starts
    later than [now]. The list holds nothing else. *)
Theorem default_slots_spec (now : datetime) (n_days : Z) :
  valid_datetime now ->
  toordinal now + n_days <= MAXORDINAL ->
  exists slots,
    _default_slots now n_days = Some slots /\
    length slots = (3 * Z.to_nat n_days)%nat /\
    (forall (d j : nat) hm,
       (d < Z.to_nat n_days)%nat -> daily !! j = Some hm ->
       exists start,
         slots !! (3 * d + j)%nat = Some (mk_slot (isoformat start) 20) /\
         generated_start now start d hm) /\
    (forall s, s ∈ slots ->
       exists start (d : nat) hm,
         (d < Z.to_nat n_days)%nat /\ hm ∈ daily /\
         s = mk_slot (isoformat start) 20 /\
         generated_start now start d hm).
Proof.
  intros Vn Hk. unfold _default_slots.
  pose proof (toordinal_le_MAX _ Vn) as Hmax.
  destruct (slots_loop_seq now 0 (Z.to_nat n_days) [] Vn) as (ts & Hw & Hs);
    [lia|].
  exists (flat_map block ts). split; [exact Hs|].
  assert (Hlen : length ts = Z.to_nat n_days).
  { apply Forall2_length in Hw. now rewrite length_seq in Hw. }
  split; [now rewrite flat_map_block_length, Hlen|]. split.
  - intros d j hm Hd Hj.
    destruct (window_lookup _ _ _ _ Hw Hd) as (t & Ht & Vt & Ot).
    exists (slot_start t hm). split.
    + assert (Hj3 : (j < 3)%nat).
      { apply lookup_lt_Some in Hj. exact Hj. }
      rewrite (flat_map_block_lookup _ _ _ _ Ht Hj3).
      unfold block. now rewrite list_lookup_fmap, Hj.
    + apply slot_start_generated; try assumption.
      eapply list_elem_of_lookup_2, Hj.
  - intros s Hin.
    apply list_elem_of_In, in_flat_map in Hin as (t & Ht & Hin).
    apply list_elem_of_In in Ht, Hin.
    apply block_elem in Hin as (hm & Hhm & ->).
    destruct (window_elem _ _ _ _ Hw Ht) as (d & Hd & Vt & Ot).
    exists (slot_start t hm), d, hm.
    repeat (split; [assumption || reflexivity|]).
    now apply slot_start_generated.
Qed.

(** Past the last date of the calendar the generator raises. *)
Lemma default_slots_overflow now n_days :
  valid_datetime now -> 0 < n_days ->
  MAXORDINAL < toordinal now + n_days ->
  _default_slots now n_days = None.
Proof.
  intros Vn Hpos Hk. unfold _default_slots.
  apply slots_loop_overflow; [exact Vn | lia | lia].
Qed.

End GeneratorFacts.

(** ** Trimming *)

Section StripFacts.

Lemma append_cons c a b : String c a +:+ b = String c (a +:+ b).
Proof. reflexivity. Qed.

Lemma lstrip_spec s :
  exists l, s = l +:+ lstrip s /\ all_space l = true /\
            not_space (first_char (lstrip s)).
Proof.
  induction s as [|c s (l & E & Hl & Hf)].
  - exists EmptyString. repeat split. intros c H. discriminate.
  - simpl. destruct (isspace c) eqn:Hc.
    + exists (String c l). split; [rewrite append_cons; now f_equal|].
      split; [simpl; now rewrite Hc | exact Hf].
    + exists EmptyString. split; [reflexivity|]. split; [reflexivity|].
      intros c' [= <-]. exact Hc.
Qed.

Lemma rstrip_spec s :
  exists r, s = rstrip s +:+ r /\ all_space r = true /\
            not_space (last_char (rstrip s)).
Proof.
  induction s as [|c s (r & E & Hr & Hl)].
  - exists EmptyString. repeat split. intros c H. discriminate.
  - simpl. destruct (rstrip s) as [|c' s'] eqn:Es.
    + destruct (isspace c) eqn:Hc.
      * exists (String c r). split; [exact (f_equal (String c) E)|].
        split; [simpl; now rewrite Hc|]. intros c0 H. discriminate.
      * exists r. split; [exact (f_equal (String c) E)|]. split; [exact Hr|].
        intros c0 [= <-]. exact Hc.
    + exists r. split; [exact (f_equal (String c) E)|]. split; [exact Hr|].
      exact Hl.
Qed.

Lemma rstrip_first s : first_char (rstrip s) = None \/
                       first_char (rstrip s) = first_char s.
Proof.
  destruct s as [|c s]; [now left|]. simpl.
  destruct (rstrip s); [destruct (isspace c)|]; auto.
Qed.

Lemma lstrip_all_space l x : all_space l = true -> lstrip (l +:+ x) = lstrip x.
Proof.
  induction l as [|c l IH]; [reflexivity|]. simpl.
  intros H. apply andb_true_iff in H as [Hc Hl]. rewrite Hc. now apply IH.
Qed.

Lemma lstrip_blank s : all_space s = true -> lstrip s = EmptyString.
Proof.
  induction s as [|c s IH]; [reflexivity|]. simpl.
  intros H. apply andb_true_iff in H as [Hc Hs]. rewrite Hc. now apply IH.
Qed.

Lemma lstrip_id x : not_space (first_char x) -> lstrip x = x.
Proof.
  destruct x as [|c x]; [reflexivity|]. simpl. intros H.
  now rewrite (H c eq_refl).
Qed.

Lemma rstrip_all_space r : all_space r = true -> rstrip r = EmptyString.
Proof.
  induction r as [|c r IH]; [reflexivity|]. simpl.
  intros H. apply andb_true_iff in H as [Hc Hr]. now rewrite (IH Hr), Hc.
Qed.

Lemma rstrip_app t r :
  all_space r = true -> not_space (last_char t) -> rstrip (t +:+ r) = t.
Proof.
  intros Hr. induction t as [|c t IH]; intros Hl.
  - simpl. now apply rstrip_all_space.
  - simpl. destruct t as [|c' t'].
    + change (EmptyString +:+ r)%string with r.
      rewrite (rstrip_all_space _ Hr). now rewrite (Hl c eq_refl).
    + rewrite IH; [reflexivity|]. exact Hl.
Qed.

Lemma strip_trimmed s : trimmed s (strip s).
Proof.
  unfold strip.
  destruct (lstrip_spec s) as (l & El & Hl & Hf).
  destruct (rstrip_spec (lstrip s)) as (r & Er & Hr & Hla).
  exists l, r. rewrite <- Er. repeat split; try assumption.
  destruct (rstrip_first (lstrip s)) as [E|E]; rewrite E; [|exact Hf].
  intros c H. discriminate.
Qed.

Lemma trimmed_strip s t : trimmed s t -> t = strip s.
Proof.
  intros (l & r & -> & Hl & Hr & Hf & Hla). unfold strip.
  rewrite (lstrip_all_space _ _ Hl).
  destruct t as [|c t].
  - change (EmptyString +:+ r)%string with r. now rewrite (lstrip_blank _ Hr).
  - rewrite lstrip_id by exact Hf. symmetry. now apply rstrip_app.
Qed.

Lemma strip_all_space s : all_space s = true -> strip s = EmptyString.
Proof. intros H. unfold strip. now rewrite (lstrip_blank _ H). Qed.

Lemma accepted_iff t :
  t ∈ ACCEPTED_INSURERS <-> t ∈ canonical_insurers.
Proof.
  unfold ACCEPTED_INSURERS, canonical_insurers.
  rewrite !elem_of_union, !elem_of_singleton, !elem_of_cons, elem_of_nil.
  tauto.
Qed.

(** C3. [check_insurance] never fails and leaves the state alone; it
    accepts a name exactly when the name with the surrounding whitespace
    trimmed, which always exists and is unique, is equal, character for
    character, to one of the four canonical entries. [" Cigna "] is
    accepted, ["cigna"] is not, and no empty or blank name is. *)
Theorem check_insurance_exact (w : world) (insurer_name : string) :
  snd (check_insurance insurer_name w) = w /\
  (exists t,
     trimmed insurer_name t /\
     (forall t', trimmed insurer_name t' -> t' = t) /\
     (fst (check_insurance insurer_name w) = true <->
      t ∈ canonical_insurers)) /\
  (all_space insurer_name = true ->
   fst (check_insurance insurer_name w) = false) /\
  fst (check_insurance " Cigna " w) = true /\
  fst (check_insurance "cigna" w) = false /\
  fst (check_insurance EmptyString w) = false.
Proof.
  split; [reflexivity|]. split.
  - exists (strip insurer_name). split; [apply strip_trimmed|].
    split; [apply trimmed_strip|].
    unfold check_insurance, ret; simpl.
    rewrite bool_decide_eq_true. apply accepted_iff.
  - split.
    + intros H. unfold check_insurance, ret; simpl.
      rewrite (strip_all_space _ H). apply bool_decide_eq_false.
      rewrite accepted_iff. unfold canonical_insurers.
      rewrite !elem_of_cons, elem_of_nil. intuition discriminate.
    + unfold check_insurance, ret; simpl.
      rewrite !bool_decide_eq_false, bool_decide_eq_true, !accepted_iff.
      unfold canonical_insurers, strip; simpl.
      rewrite !elem_of_cons, !elem_of_nil. intuition discriminate.
Qed.

End StripFacts.

(** ** Slot queries *)

Section QueryFacts.

Lemma prefix_begins p s :
  String.prefix p s = true <-> exists rest, s = p +:+ rest.
Proof.
  revert s. induction p as [|c p IH]; intros s.
  - destruct s; simpl; (split; [intros _; eexists; reflexivity | reflexivity]).
  - destruct s as [|c' s]; simpl.
    + split; [discriminate | intros [rest H]; discriminate].
    + destruct (ascii_dec c c') as [->|Hne].
      * rewrite IH. split; intros [rest H]; exists rest.
        -- now rewrite append_cons, H.
        -- rewrite append_cons in H. now injection H.
      * split; [discriminate|]. intros [rest H].
        rewrite append_cons in H. injection H as H1 H2. congruence.
Qed.

Lemma startswith_date s d :
  String.length d = 10%nat ->
  startswith (start_iso s) d = String.eqb (slot_date s) d.
Proof.
  intros Hd. unfold startswith, slot_date.
  destruct (String.eqb_spec (substring 0 10 (start_iso s)) d) as [E|E].
  - apply prefix_correct. now rewrite Hd.
  - apply not_true_is_false. intros H. apply prefix_correct in H.
    now rewrite Hd in H.
Qed.

Lemma get_slots_eq date_pref w :
  get_slots date_pref w =
  (match date_pref with
   | Some d =>
       if String.eqb d EmptyString then firstn 6 (SLOTS w)
       else match List.filter (fun s => startswith (start_iso s) d) (SLOTS w) with
            | [] => firstn 6 (SLOTS w)
            | pref => firstn 3 pref
            end
   | None => firstn 6 (SLOTS w)
   end, w).
Proof.
  unfold get_slots, bind, read_SLOTS, ret.
  destruct date_pref as [d|]; [|reflexivity].
  destruct (d =? EmptyString)%string; simpl; [reflexivity|].
  destruct (List.filter _ _); reflexivity.
Qed.

Lemma sorted_take {A} (R : A -> A -> Prop) n l :
  StronglySorted R l -> StronglySorted R (firstn n l).
Proof.
  intros H. rewrite <- (firstn_skipn n l) in H.
  now apply StronglySorted_app_1_l in H.
Qed.

Lemma sorted_filter {A} (R : A -> A -> Prop) f l :
  StronglySorted R l -> StronglySorted R (List.filter f l).
Proof.
  induction 1 as [|x l Hs IH Hall]; simpl; [constructor|].
  destruct (f x); [|exact IH]. constructor; [exact IH|].
  rewrite List.Forall_forall in *. intros y Hy.
  apply List.filter_In in Hy. apply Hall. tauto.
Qed.

(** C10. The date preference is matched as a prefix of [start_iso]: for a
    non-empty [date_pref], the slots filtered are those of the catalog whose
    [start_iso] begins with [date_pref], in catalog order; when there are
    any, the result is the first three of them at most, and the first six
    of the catalog at most when there are none. An empty [date_pref] is no
    preference at all. *)
Theorem get_slots_prefix_match (w : world) (date_pref : string) :
  date_pref <> EmptyString ->
  let pref :=
    List.filter (fun s => startswith (start_iso s) date_pref) (SLOTS w) in
  (forall s, s ∈ pref <->
             s ∈ SLOTS w /\ exists rest, start_iso s = date_pref +:+ rest) /\
  (pref <> [] -> fst (get_slots (Some date_pref) w) = firstn 3 pref) /\
  (pref = [] -> fst (get_slots (Some date_pref) w) = firstn 6 (SLOTS w)) /\
  get_slots (Some EmptyString) w = (firstn 6 (SLOTS w), w) /\
  get_slots (Some EmptyString) w = get_slots None w.
Proof.
  intros Hne pref. split; [|split; [|split; [|split]]].
  - intros s. unfold pref. rewrite list_elem_of_In, List.filter_In.
    unfold startswith. rewrite prefix_begins, list_elem_of_In. tauto.
  - intros Hp. rewrite get_slots_eq. cbn [fst].
    apply String.eqb_neq in Hne. rewrite Hne. fold pref.
    destruct pref; [congruence | reflexivity].
  - intros Hp. rewrite get_slots_eq. cbn [fst].
    apply String.eqb_neq in Hne. rewrite Hne. fold pref. now rewrite Hp.
  - now rewrite get_slots_eq.
  - now rewrite !get_slots_eq.
Qed.

(** C4. On a catalog that [_default_slots] generated: when a date
    preference is given and some slot of the catalog falls on that date, the
    result is the slots of that date, three at most, and otherwise the first
    six slots of the catalog at most; either way the result is in ascending
    order of start and is made of slots of the catalog. [get_slots] is
    total and leaves the state alone, and on an empty catalog it returns
    the empty list. *)
Theorem get_slots_by_date (now : datetime) (n_days : Z) (w : world)
    (date_pref : option string) :
  valid_datetime now ->
  _default_slots now n_days = Some (SLOTS w) ->
  is_date_pref date_pref ->
  let matching := List.filter (on_date date_pref) (SLOTS w) in
  let res := fst (get_slots date_pref w) in
  (matching <> [] ->
   res = firstn 3 matching /\ (length res <= 3)%nat /\ res <> [] /\
   Forall (fun s => Some (slot_date s) = date_pref) res) /\
  (matching = [] -> res = firstn 6 (SLOTS w) /\ (length res <= 6)%nat) /\
  StronglySorted slot_before res /\
  res ⊆ SLOTS w /\
  (SLOTS w = [] -> res = []) /\
  snd (get_slots date_pref w) = w.
Proof.
  intros Vn Hgen Hdp matching res.
  assert (Hsorted : StronglySorted slot_before (SLOTS w))
    by (eapply default_slots_sorted; eassumption).
  assert (Hres : res = match matching with
                       | [] => firstn 6 (SLOTS w)
                       | _ => firstn 3 matching
                       end).
  { unfold res, matching. rewrite get_slots_eq. cbn [fst].
    destruct date_pref as [d|]; cbn [is_date_pref] in Hdp.
    - destruct (String.eqb_spec d EmptyString) as [->|_]; [discriminate Hdp|].
      rewrite (List.filter_ext _ (on_date (Some d)));
        [destruct (List.filter _ _); reflexivity|].
      intros s. now apply startswith_date.
    - replace (List.filter (on_date None) (SLOTS w)) with (@nil slot);
        [reflexivity|].
      clear. induction (SLOTS w) as [|x l IH]; [reflexivity | exact IH]. }
  split; [|split; [|split; [|split; [|split]]]].
  - intros Hm. assert (E : res = firstn 3 matching).
    { rewrite Hres. destruct matching; [congruence | reflexivity]. }
    rewrite E. split; [reflexivity|].
    split; [rewrite length_take; lia|].
    split; [destruct matching; [congruence | discriminate]|].
    apply Forall_forall. intros s Hs. apply subseteq_take in Hs.
    unfold matching in Hs. apply list_elem_of_In, List.filter_In in Hs as [_ Hs].
    destruct date_pref as [d|]; [|discriminate Hs].
    simpl in Hs. apply String.eqb_eq in Hs. now rewrite Hs.
  - intros Hm. rewrite Hres, Hm. split; [reflexivity|].
    rewrite length_take. lia.
  - rewrite Hres. destruct matching as [|m0 ms] eqn:E; [now apply sorted_take|].
    rewrite <- E. apply sorted_take. unfold matching. now apply sorted_filter.
  - rewrite Hres. destruct matching as [|m0 ms] eqn:E; [apply subseteq_take|].
    rewrite <- E. intros s Hs. apply subseteq_take in Hs.
    unfold matching in Hs. apply list_elem_of_In, List.filter_In in Hs as [Hs _].
    now apply list_elem_of_In.
  - intros Hnil. rewrite Hres. unfold matching. now rewrite Hnil.
  - now rewrite get_slots_eq.
Qed.

End QueryFacts.

(** ** Bookings *)

Section BackendFacts.

Variable uuid4 : nat -> Z.

Lemma create_booking_unknown name phone insurer reason slot_iso w :
  slot_iso ∉ catalog w ->
  create_booking uuid4 name phone insurer reason slot_iso w
  = (Error "slot_unavailable", w).
Proof.
  intros Hn. unfold create_booking, bind, read_SLOTS.
  rewrite bool_decide_eq_true_2; [reflexivity|].
  rewrite elem_of_list_to_set. exact Hn.
Qed.

Lemma create_booking_known name phone insurer reason slot_iso w :
  slot_iso ∈ catalog w ->
  create_booking uuid4 name phone insurer reason slot_iso w
  = (Saved (confirmation_of (uuid4 (drawn w))),
     mk_world (SLOTS w)
       (BOOKINGS w ++ [mk_booking (confirmation_of (uuid4 (drawn w)))
                         name phone insurer reason slot_iso])
       (S (drawn w))).
Proof.
  intros Hin. unfold create_booking, bind, read_SLOTS.
  rewrite bool_decide_eq_false_2; [reflexivity|].
  rewrite elem_of_list_to_set. intros Hn. exact (Hn Hin).
Qed.

Lemma check_insurance_world n w : snd (check_insurance n w) = w.
Proof. reflexivity. Qed.

Lemma get_slots_world d w : snd (get_slots d w) = w.
Proof.
  unfold get_slots, bind, read_SLOTS.
  destruct d as [d|]; [|reflexivity].
  destruct (negb (d =? EmptyString)%string); [|reflexivity].
  destruct (List.filter _ _); reflexivity.
Qed.

(** One call either leaves the state alone or appends one booking. *)
Lemma invoke_cases c w :
  snd (invoke uuid4 c w) = w \/
  exists n p i r s,
    c = CreateBooking n p i r s /\ s ∈ catalog w /\
    fst (invoke uuid4 c w) = Booking (Saved (confirmation_of (uuid4 (drawn w)))) /\
    snd (invoke uuid4 c w) =
      mk_world (SLOTS w)
        (BOOKINGS w ++ [mk_booking (confirmation_of (uuid4 (drawn w))) n p i r s])
        (S (drawn w)).
Proof.
  destruct c as [n|d|n p i r s]; simpl; unfold bind.
  - left. reflexivity.
  - left. pose proof (get_slots_world d w) as H.
    destruct (get_slots d w); simpl in *. exact H.
  - destruct (decide (s ∈ catalog w)) as [Hin|Hn].
    + right. exists n, p, i, r, s.
      rewrite (create_booking_known _ _ _ _ _ _ Hin). auto.
    + left. rewrite (create_booking_unknown _ _ _ _ _ _ Hn). reflexivity.
Qed.

Lemma run_cons c cs w :
  run uuid4 (c :: cs) w =
  (fst (invoke uuid4 c w) :: fst (run uuid4 cs (snd (invoke uuid4 c w))),
   snd (run uuid4 cs (snd (invoke uuid4 c w)))).
Proof.
  simpl. unfold bind, ret.
  destruct (invoke uuid4 c w) as [r w1]; simpl.
  destruct (run uuid4 cs w1) as [rs w2]; reflexivity.
Qed.

Lemma invoke_SLOTS c w : SLOTS (snd (invoke uuid4 c w)) = SLOTS w.
Proof.
  destruct (invoke_cases c w) as [H|(n & p & i & r & s & _ & _ & _ & H)];
    rewrite H; reflexivity.
Qed.

Lemma run_SLOTS cs w : SLOTS (snd (run uuid4 cs w)) = SLOTS w.
Proof.
  revert w. induction cs as [|c cs IH]; intros w; [reflexivity|].
  rewrite run_cons; simpl. rewrite IH. apply invoke_SLOTS.
Qed.

Lemma run_length cs w : length (fst (run uuid4 cs w)) = length cs.
Proof.
  revert w. induction cs as [|c cs IH]; intros w; [reflexivity|].
  rewrite run_cons; simpl. now rewrite IH.
Qed.

Lemma invoke_catalog c w : catalog (snd (invoke uuid4 c w)) = catalog w.
Proof. unfold catalog. now rewrite invoke_SLOTS. Qed.

Lemma bookings_for_app s bs bs' :
  bookings_for s (bs ++ bs') = (bookings_for s bs + bookings_for s bs')%nat.
Proof. unfold bookings_for. now rewrite List.filter_app, length_app. Qed.

Lemma bookings_for_one s b :
  bookings_for s [b] = if String.eqb (b_slot_iso b) s then 1%nat else 0%nat.
Proof.
  unfold bookings_for, refs_slot; simpl.
  destruct (b_slot_iso b =? s)%string; reflexivity.
Qed.

(** What one call adds to the entries of slot start [s], and whether a call
    for [s] is answered with a confirmation. *)
Lemma invoke_bookings_for c w s :
  bookings_for s (BOOKINGS (snd (invoke uuid4 c w))) =
    (bookings_for s (BOOKINGS w) +
     (if bool_decide (s ∈ catalog w) && books s c then 1 else 0))%nat /\
  (books s c = true ->
   saved (fst (invoke uuid4 c w)) = bool_decide (s ∈ catalog w)).
Proof.
  destruct c as [n|d|n p i r s']; simpl; unfold bind.
  - rewrite andb_false_r. split; [simpl; lia | discriminate].
  - rewrite andb_false_r.
    pose proof (get_slots_world d w) as H.
    destruct (get_slots d w); simpl in *; subst.
    split; [lia | discriminate].
  - destruct (String.eqb_spec s' s) as [->|Hne].
    + destruct (decide (s ∈ catalog w)) as [Hin|Hn].
      * rewrite (create_booking_known _ _ _ _ _ _ Hin); simpl.
        rewrite bool_decide_eq_true_2 by exact Hin; simpl.
        rewrite bookings_for_app, bookings_for_one; simpl.
        rewrite String.eqb_refl. auto.
      * rewrite (create_booking_unknown _ _ _ _ _ _ Hn); simpl.
        rewrite bool_decide_eq_false_2 by exact Hn; simpl.
        split; [lia | reflexivity].
    + rewrite andb_false_r. split; [|discriminate].
      destruct (decide (s' ∈ catalog w)) as [Hin|Hn].
      * rewrite (create_booking_known _ _ _ _ _ _ Hin); simpl.
        rewrite bookings_for_app, bookings_for_one; simpl.
        apply String.eqb_neq in Hne. rewrite Hne. lia.
      * rewrite (create_booking_unknown _ _ _ _ _ _ Hn); simpl. lia.
Qed.

Lemma get_slots_subset d w s : s ∈ fst (get_slots d w) -> s ∈ SLOTS w.
Proof.
  unfold get_slots, bind, read_SLOTS.
  assert (H6 : s ∈ firstn 6 (SLOTS w) -> s ∈ SLOTS w).
  { apply subseteq_take. }
  destruct d as [d|]; [|exact H6].
  destruct (negb (d =? EmptyString)%string); [|exact H6].
  destruct (List.filter _ _) as [|x l] eqn:E; [exact H6|].
  unfold ret. cbn [fst]. rewrite <- E. intros H. apply subseteq_take in H.
  apply list_elem_of_In, List.filter_In in H. apply list_elem_of_In. tauto.
Qed.

(** C1, as amended. After any run, the ledger holds one entry with a given
    [slot_iso] for each [create_booking] call made against it when that
    slot start is in the catalog, and none of the run's when it is not:
    each call against a catalog slot start is answered with a confirmation,
    also when the slot is already booked, and each call against a start
    outside the catalog with an error. *)
Theorem ledger_counts_calls (cs : list call) (w : world) (s : string) :
  length (fst (run uuid4 cs w)) = length cs /\
  bookings_for s (BOOKINGS (snd (run uuid4 cs w))) =
    (bookings_for s (BOOKINGS w) +
     (if bool_decide (s ∈ catalog w) then calls_for s cs else 0))%nat /\
  (forall (i : nat) c r,
     cs !! i = Some c -> fst (run uuid4 cs w) !! i = Some r ->
     books s c = true -> saved r = bool_decide (s ∈ catalog w)).
Proof.
  split; [apply run_length|].
  revert w. induction cs as [|c cs IH]; intros w.
  - simpl. split; [destruct (bool_decide _); unfold calls_for; simpl; lia|].
    intros i c r H. rewrite lookup_nil in H. discriminate.
  - rewrite run_cons. cbn [fst snd].
    destruct (IH (snd (invoke uuid4 c w))) as [IH1 IH2].
    destruct (invoke_bookings_for c w s) as [H1 H2].
    rewrite invoke_catalog in IH1, IH2. split.
    + rewrite IH1, H1. unfold calls_for. simpl List.filter.
      destruct (bool_decide (s ∈ catalog w)), (books s c); simpl; lia.
    + intros [|i] c' r; simpl.
      * intros [= <-] [= <-]. exact H2.
      * apply IH2.
Qed.

(** C2, as amended. [create_booking] answers
    [{"error": "slot_unavailable"}] exactly when [slot_iso] is not a start
    of the catalog, whatever the ledger holds; for a start of the catalog it
    answers with the confirmation id drawn for this call. *)
Theorem create_booking_reply (name phone insurer reason slot_iso : string)
    (w : world) :
  (fst (create_booking uuid4 name phone insurer reason slot_iso w)
     = Error "slot_unavailable" <-> slot_iso ∉ catalog w) /\
  (fst (create_booking uuid4 name phone insurer reason slot_iso w)
     = Saved (confirmation_of (uuid4 (drawn w))) <-> slot_iso ∈ catalog w).
Proof.
  destruct (decide (slot_iso ∈ catalog w)) as [Hin|Hn].
  - rewrite (create_booking_known _ _ _ _ _ _ Hin); simpl.
    split; split; try discriminate; try tauto.
  - rewrite (create_booking_unknown _ _ _ _ _ _ Hn); simpl.
    split; split; try discriminate; try tauto.
Qed.

Lemma invoke_ids c w :
  (drawn w <= drawn (snd (invoke uuid4 c w)))%nat /\
  map b_id (BOOKINGS (snd (invoke uuid4 c w))) =
    map b_id (BOOKINGS w) ++
    map (fun k => confirmation_of (uuid4 k))
        (seq (drawn w) (drawn (snd (invoke uuid4 c w)) - drawn w)).
Proof.
  destruct (invoke_cases c w)
    as [H|(n & p & i & r & s & _ & _ & _ & H)]; rewrite H.
  - rewrite Nat.sub_diag. simpl. now rewrite app_nil_r.
  - simpl. split; [lia|].
    replace (S (drawn w) - drawn w)%nat with 1%nat by lia.
    now rewrite map_app.
Qed.

Lemma run_ids (cs : list call) (w : world) :
  let w' := snd (run uuid4 cs w) in
  (drawn w <= drawn w')%nat /\
  map b_id (BOOKINGS w') =
    map b_id (BOOKINGS w) ++
    map (fun k => confirmation_of (uuid4 k))
        (seq (drawn w) (drawn w' - drawn w)).
Proof.
  revert w. induction cs as [|c cs IH]; intros w; cbn zeta.
  - simpl. rewrite Nat.sub_diag. simpl. now rewrite app_nil_r.
  - rewrite run_cons. cbn [fst snd].
    specialize (IH (snd (invoke uuid4 c w))). cbn zeta in IH.
    destruct IH as [IHd IHi]. destruct (invoke_ids c w) as [Hd Hi].
    set (w1 := snd (invoke uuid4 c w)) in *.
    set (w2 := snd (run uuid4 cs w1)) in *.
    split; [lia|].
    rewrite IHi, Hi, <- app_assoc, <- map_app. do 2 f_equal.
    replace (drawn w2 - drawn w)%nat
      with ((drawn w1 - drawn w) + (drawn w2 - drawn w1))%nat by lia.
    rewrite seq_app. do 2 f_equal. lia.
Qed.

(** The confirmation that one call hands out, if any, is the token of the
    UUID that the call draws. *)
Lemma invoke_tokens c w :
  confirmations [fst (invoke uuid4 c w)] =
  map (fun k => confirmation_of (uuid4 k))
      (seq (drawn w) (drawn (snd (invoke uuid4 c w)) - drawn w)).
Proof.
  destruct c as [n|d|n p i r s]; simpl; unfold bind.
  - simpl. now rewrite Nat.sub_diag.
  - pose proof (get_slots_world d w) as H.
    destruct (get_slots d w); simpl in *; subst. now rewrite Nat.sub_diag.
  - destruct (decide (s ∈ catalog w)) as [Hin|Hn].
    + rewrite (create_booking_known _ _ _ _ _ _ Hin); simpl.
      replace (S (drawn w) - drawn w)%nat with 1%nat by lia. reflexivity.
    + rewrite (create_booking_unknown _ _ _ _ _ _ Hn); simpl.
      now rewrite Nat.sub_diag.
Qed.

Lemma confirmations_cons r rs :
  confirmations (r :: rs) = confirmations [r] ++ confirmations rs.
Proof. unfold confirmations. simpl. destruct r as [a|sl|[c|e]]; reflexivity. Qed.

Lemma run_tokens (cs : list call) (w : world) :
  confirmations (fst (run uuid4 cs w)) =
  map (fun k => confirmation_of (uuid4 k))
      (seq (drawn w) (drawn (snd (run uuid4 cs w)) - drawn w)).
Proof.
  revert w. induction cs as [|c cs IH]; intros w.
  - simpl. now rewrite Nat.sub_diag.
  - rewrite run_cons. cbn [fst snd].
    rewrite confirmations_cons, IH, invoke_tokens, <- map_app. f_equal.
    destruct (invoke_ids c w) as [Hd _].
    destruct (run_ids cs (snd (invoke uuid4 c w))) as [Hd' _].
    set (w1 := snd (invoke uuid4 c w)) in *.
    set (w2 := snd (run uuid4 cs w1)) in *.
    replace (drawn w2 - drawn w)%nat
      with ((drawn w1 - drawn w) + (drawn w2 - drawn w1))%nat by lia.
    rewrite seq_app. do 2 f_equal. lia.
Qed.

(** C6, as amended. The ledger trusts the source. A [create_booking] that
    answers with a confirmation has drawn one UUID and has appended one
    booking whose id is the first eight hex digits, in upper case, of that
    UUID, which is also the id it returns; it does so whatever ids the
    ledger already holds, without comparing, rejecting or retrying. After
    any run the confirmations handed out are the tokens of the UUIDs drawn
    during the run, in the order drawn, and the ids of the ledger are the
    ids it had followed by those tokens; they are pairwise distinct
    exactly when those are. *)
Theorem ledger_ids_are_drawn_tokens (cs : list call) (w : world) :
  let w' := snd (run uuid4 cs w) in
  (drawn w <= drawn w')%nat /\
  map b_id (BOOKINGS w') =
    map b_id (BOOKINGS w) ++
    map (fun k => confirmation_of (uuid4 k))
        (seq (drawn w) (drawn w' - drawn w)) /\
  confirmations (fst (run uuid4 cs w)) =
    map (fun k => confirmation_of (uuid4 k))
        (seq (drawn w) (drawn w' - drawn w)) /\
  (forall name phone insurer reason slot_iso c,
     fst (create_booking uuid4 name phone insurer reason slot_iso w)
       = Saved c ->
     c = confirmation_of (uuid4 (drawn w)) /\
     snd (create_booking uuid4 name phone insurer reason slot_iso w) =
       mk_world (SLOTS w)
         (BOOKINGS w ++ [mk_booking c name phone insurer reason slot_iso])
         (S (drawn w))) /\
  (NoDup (map b_id (BOOKINGS w')) <->
   NoDup (map b_id (BOOKINGS w) ++
          map (fun k => confirmation_of (uuid4 k))
              (seq (drawn w) (drawn w' - drawn w)))).
Proof.
  cbn zeta. destruct (run_ids cs w) as [Hd Hi].
  split; [exact Hd|]. split; [exact Hi|]. split; [apply run_tokens|]. split.
  - intros n p i r s c.
    destruct (decide (s ∈ catalog w)) as [Hin|Hn].
    + rewrite (create_booking_known _ _ _ _ _ _ Hin); simpl.
      intros [= <-]. split; reflexivity.
    + rewrite (create_booking_unknown _ _ _ _ _ _ Hn); simpl. discriminate.
  - now rewrite Hi.
Qed.

(** C7. A call never changes or removes an entry of the ledger: every
    entry keeps its place and its contents, over one call and over any run;
    [check_insurance] and [get_slots] leave the whole state as it is, and
    so does a [create_booking] that answers with an error. *)
Theorem bookings_never_change (c : call) (w : world) :
  (forall (i : nat) b,
     BOOKINGS w !! i = Some b ->
     BOOKINGS (snd (invoke uuid4 c w)) !! i = Some b) /\
  (forall n, snd (invoke uuid4 (CheckInsurance n) w) = w) /\
  (forall d, snd (invoke uuid4 (GetSlots d) w) = w) /\
  (forall e, fst (invoke uuid4 c w) = Booking (Error e) ->
             snd (invoke uuid4 c w) = w) /\
  (forall cs (i : nat) b,
     BOOKINGS w !! i = Some b ->
     BOOKINGS (snd (run uuid4 cs w)) !! i = Some b).
Proof.
  assert (Hstep : forall c w (i : nat) b,
            BOOKINGS w !! i = Some b ->
            BOOKINGS (snd (invoke uuid4 c w)) !! i = Some b).
  { intros c' w' i b Hb.
    destruct (invoke_cases c' w')
      as [H|(n & p & j & r & s & _ & _ & _ & H)]; rewrite H; [exact Hb|].
    simpl. apply lookup_app_l_Some. exact Hb. }
  split; [apply Hstep|]. split; [reflexivity|].
  split.
  { intros d. simpl. unfold bind.
    pose proof (get_slots_world d w) as H.
    destruct (get_slots d w); simpl in *. exact H. }
  split.
  { intros e He.
    destruct (invoke_cases c w)
      as [H|(n & p & j & r & s & _ & _ & Hr & _)]; [exact H|].
    rewrite Hr in He. discriminate. }
  intros cs. revert w. induction cs as [|c' cs IH]; intros w i b Hb.
  - exact Hb.
  - rewrite run_cons. cbn [snd]. apply IH, Hstep, Hb.
Qed.

(** C8. Every slot that [get_slots] returns, with or without a date
    preference, can be booked afterwards: whatever calls come in between,
    [create_booking] with its [start_iso] answers with a confirmation. *)
Theorem offered_slot_is_bookable (date_pref : option string) (w : world)
    (s : slot) (cs : list call) (name phone insurer reason : string) :
  s ∈ fst (get_slots date_pref w) ->
  let wl := snd (run uuid4 cs w) in
  fst (create_booking uuid4 name phone insurer reason (start_iso s) wl)
  = Saved (confirmation_of (uuid4 (drawn wl))).
Proof.
  intros Hs wl. rewrite create_booking_known; [reflexivity|].
  unfold catalog, wl. rewrite run_SLOTS.
  apply list_elem_of_fmap_2. eapply get_slots_subset, Hs.
Qed.

(** C9, as amended. The reason for the visit is not validated: the answer
    of [create_booking] does not depend on it, and a call with an empty
    reason for a start of the catalog appends a booking whose reason is
    the empty string. *)
Theorem reason_is_not_validated (name phone insurer slot_iso : string)
    (w : world) :
  (forall reason reason',
     fst (create_booking uuid4 name phone insurer reason slot_iso w) =
     fst (create_booking uuid4 name phone insurer reason' slot_iso w)) /\
  (slot_iso ∈ catalog w ->
   BOOKINGS (snd (create_booking uuid4 name phone insurer EmptyString slot_iso w)) =
   BOOKINGS w ++ [mk_booking (confirmation_of (uuid4 (drawn w)))
                    name phone insurer EmptyString slot_iso]).
Proof.
  split.
  - intros r r'. destruct (decide (slot_iso ∈ catalog w)) as [Hin|Hn].
    + now rewrite !(create_booking_known _ _ _ _ _ _ Hin).
    + now rewrite !(create_booking_unknown _ _ _ _ _ _ Hn).
  - intros Hin. now rewrite (create_booking_known _ _ _ _ _ _ Hin).
Qed.

End BackendFacts.

(** * The properties on sample data *)

Lemma default_slots_spec_witness :
  exists slots,
    _default_slots now0 3 = Some slots /\
    length slots = (3 * Z.to_nat 3)%nat /\
    (forall (d j : nat) hm,
       (d < Z.to_nat 3)%nat -> daily !! j = Some hm ->
       exists start,
         slots !! (3 * d + j)%nat = Some (mk_slot (isoformat start) 20) /\
         generated_start now0 start d hm) /\
    (forall s, s ∈ slots ->
       exists start (d : nat) hm,
         (d < Z.to_nat 3)%nat /\ hm ∈ daily /\
         s = mk_slot (isoformat start) 20 /\
         generated_start now0 start d hm).
Proof.
  apply (default_slots_spec now0 3).
  - apply valid_datetimeb_spec. reflexivity.
  - vm_compute. discriminate.
Defined.

Lemma get_slots_by_date_witness :
  let date_pref := Some "2025-06-11"%string in
  let matching := List.filter (on_date date_pref) (SLOTS w0) in
  let res := fst (get_slots date_pref w0) in
  (matching <> [] ->
   res = firstn 3 matching /\ (length res <= 3)%nat /\ res <> [] /\
   Forall (fun s => Some (slot_date s) = date_pref) res) /\
  (matching = [] -> res = firstn 6 (SLOTS w0) /\ (length res <= 6)%nat) /\
  StronglySorted slot_before res /\
  res ⊆ SLOTS w0 /\
  (SLOTS w0 = [] -> res = []) /\
  snd (get_slots date_pref w0) = w0.
Proof.
  apply (get_slots_by_date now0 3 w0 (Some "2025-06-11"%string)).
  - apply valid_datetimeb_spec. reflexivity.
  - reflexivity.
  - reflexivity.
Defined.

Lemma offered_slot_is_bookable_witness :
  let w := snd (run fresh_source
                  [CreateBooking "Ann Lee" "5550100" "Cigna" "cough" slot_a] w0) in
  fst (create_booking fresh_source "Bo Ray" "5550101" "Aetna" "rash" slot_b w)
  = Saved (confirmation_of (fresh_source (drawn w))).
Proof.
  apply (offered_slot_is_bookable fresh_source (Some "2025-06-11"%string) w0
           (mk_slot slot_b 20)
           [CreateBooking "Ann Lee" "5550100" "Cigna" "cough" slot_a]
           "Bo Ray" "5550101" "Aetna" "rash").
  apply list_elem_of_In. vm_compute. tauto.
Defined.

Lemma get_slots_prefix_match_witness :
  let pref := List.filter (fun s => startswith (start_iso s) "2025") (SLOTS w0) in
  (forall s, s ∈ pref <->
             s ∈ SLOTS w0 /\ exists rest, start_iso s = "2025" +:+ rest) /\
  (pref <> [] -> fst (get_slots (Some "2025"%string) w0) = firstn 3 pref) /\
  (pref = [] -> fst (get_slots (Some "2025"%string) w0) = firstn 6 (SLOTS w0)) /\
  get_slots (Some EmptyString) w0 = (firstn 6 (SLOTS w0), w0) /\
  get_slots (Some EmptyString) w0 = get_slots None w0.
Proof.
  apply (get_slots_prefix_match w0 "2025"). discriminate.
Defined.

(** A bare year selects slots: the preference is not compared as a date. *)
Example get_slots_year :
  fst (get_slots (Some "2025"%string) w0) =
  [mk_slot "2025-06-10T10:00:00" 20; mk_slot "2025-06-10T14:30:00" 20;
   mk_slot "2025-06-10T16:00:00" 20].
Proof. reflexivity. Qed.

(** C1 fails on the code: two calls against the same slot start are both
    answered with a confirmation, and the ledger then holds two entries
    with that [slot_iso]. *)
Lemma double_booking_counterexample :
  let cs := [CreateBooking "Ann Lee" "5550100" "Cigna" "cough" slot_a;
             CreateBooking "Bo Ray" "5550101" "Aetna" "rash" slot_a] in
  fst (run fresh_source cs w0) =
    [Booking (Saved "3FA9C1D2"); Booking (Saved "3FA9C1E2")] /\
  bookings_for slot_a (BOOKINGS (snd (run fresh_source cs w0))) = 2%nat /\
  ~ NoDup (map b_slot_iso (BOOKINGS (snd (run fresh_source cs w0)))).
Proof.
  split; [vm_compute; reflexivity|]. split; [vm_compute; reflexivity|].
  intros H. vm_compute in H. apply NoDup_cons in H as [H _].
  apply H. left.
Qed.

(** C2 fails on the code: [slot_a] is referenced by a booking of the
    ledger, and [create_booking] does not answer with the error. *)
Lemma booked_slot_counterexample :
  ~ (fst (create_booking fresh_source "Bo Ray" "5550101" "Aetna" "rash" slot_a w1)
     = Error "slot_unavailable"
     <-> (slot_a ∉ catalog w1 \/
          exists b, b ∈ BOOKINGS w1 /\ b_slot_iso b = slot_a)).
Proof.
  intros [_ H].
  assert (E : fst (create_booking fresh_source "Bo Ray" "5550101" "Aetna"
                     "rash" slot_a w1) = Saved "3FA9C1E2")
    by (vm_compute; reflexivity).
  rewrite E in H. discriminate H. right.
  exists (mk_booking "3FA9C1D2" "Ann Lee" "5550100" "Cigna" "cough" slot_a).
  split; [|reflexivity]. apply list_elem_of_In. vm_compute. tauto.
Qed.

(** C6 fails on the code: when the source repeats a token, a successful
    [create_booking] stores an id that the ledger already holds. *)
Lemma repeated_token_counterexample :
  let wa := snd (create_booking stuck_source "Ann Lee" "5550100" "Cigna"
                   "cough" slot_a w0) in
  let rb := create_booking stuck_source "Bo Ray" "5550101" "Aetna" "rash"
              slot_b wa in
  fst rb = Saved "3FA9C1D2" /\
  "3FA9C1D2"%string ∈ map b_id (BOOKINGS wa) /\
  ~ NoDup (map b_id (BOOKINGS (snd rb))).
Proof.
  split; [vm_compute; reflexivity|]. split.
  - apply list_elem_of_In. vm_compute. tauto.
  - intros H. vm_compute in H. apply NoDup_cons in H as [H _].
    apply H. left.
Qed.

(** C9 fails on the code: a call with an empty reason creates a booking. *)
Lemma empty_reason_counterexample :
  let r := create_booking fresh_source "Ann Lee" "5550100" "Cigna" EmptyString slot_a w0 in
  fst r = Saved "3FA9C1D2" /\
  BOOKINGS (snd r) =
    [mk_booking "3FA9C1D2" "Ann Lee" "5550100" "Cigna" EmptyString slot_a].
Proof. split; vm_compute; reflexivity. Qed.

(** Tabs, line ends and no-break spaces are trimmed like blanks. *)
Example strip_control_characters :
  strip (String "009" (String " " ("Blue Cross" +:+
           String "010" (String "160" EmptyString))))
  = "Blue Cross"%string.
Proof. reflexivity. Qed.

(** * Further properties *)

(** ** Confirmation ids *)

Section TokenFacts.

Lemma append_length a b :
  String.length (a +:+ b) = (String.length a + String.length b)%nat.
Proof. induction a as [|c a IH]; simpl; [reflexivity | now rewrite IH]. Qed.

Lemma append_assoc a b c : (a +:+ b) +:+ c = a +:+ (b +:+ c).
Proof.
  induction a as [|x a IH]; [reflexivity|].
  rewrite !append_cons. now rewrite IH.
Qed.

Lemma append_nil_r a : a +:+ EmptyString = a.
Proof.
  induction a as [|x a IH]; [reflexivity|]. rewrite append_cons. now rewrite IH.
Qed.

Lemma append_inj_length a a' b b' :
  String.length a = String.length a' ->
  a +:+ b = a' +:+ b' -> a = a' /\ b = b'.
Proof.
  revert a'. induction a as [|c a IH]; intros [|c' a'] Hl H;
    try discriminate Hl.
  - split; [reflexivity | exact H].
  - rewrite !append_cons in H. injection H as -> H. injection Hl as Hl.
    destruct (IH _ Hl H) as [-> ->]. split; reflexivity.
Qed.

Lemma substring_append_l a b : substring 0 (String.length a) (a +:+ b) = a.
Proof.
  induction a as [|c a IH].
  - simpl. destruct b; reflexivity.
  - rewrite append_cons. simpl. now rewrite IH.
Qed.

Lemma hex_fixed_length n u : String.length (hex_fixed n u) = n.
Proof.
  revert u. induction n as [|n IH]; intros u; [reflexivity|].
  simpl. rewrite append_length, IH. simpl. lia.
Qed.

Lemma HEX_fixed_length n u : String.length (HEX_fixed n u) = n.
Proof.
  revert u. induction n as [|n IH]; intros u; [reflexivity|].
  simpl. rewrite append_length, IH. simpl. lia.
Qed.

Lemma hex_fixed_split n k u :
  hex_fixed (n + k) u = hex_fixed n (u / 16 ^ Z.of_nat k) +:+ hex_fixed k u.
Proof.
  revert u. induction k as [|k IH]; intros u.
  - rewrite Nat.add_0_r. simpl. now rewrite Z.div_1_r, append_nil_r.
  - rewrite Nat.add_succ_r. cbn [hex_fixed]. rewrite IH, append_assoc.
    do 2 f_equal. rewrite Z.div_div by lia. f_equal.
    rewrite Nat2Z.inj_succ, Z.pow_succ_r by lia. reflexivity.
Qed.

Lemma sixteen_cases d :
  0 <= d < 16 ->
  d = 0 \/ d = 1 \/ d = 2 \/ d = 3 \/ d = 4 \/ d = 5 \/ d = 6 \/ d = 7 \/
  d = 8 \/ d = 9 \/ d = 10 \/ d = 11 \/ d = 12 \/ d = 13 \/ d = 14 \/ d = 15.
Proof. lia. Qed.

Lemma upper_hexdigit d :
  0 <= d < 16 ->
  upper_char (hexdigit d) = HEXdigit d /\ is_upper_hex (HEXdigit d) = true.
Proof.
  intros H. destruct (sixteen_cases _ H)
    as [E|[E|[E|[E|[E|[E|[E|[E|[E|[E|[E|[E|[E|[E|[E|E]]]]]]]]]]]]]]];
    rewrite E; split; reflexivity.
Qed.

Lemma HEXdigit_inj d d' :
  0 <= d < 16 -> 0 <= d' < 16 -> HEXdigit d = HEXdigit d' -> d = d'.
Proof.
  intros H H' E. apply (f_equal N_of_ascii) in E. unfold HEXdigit in E.
  destruct (Z.ltb_spec d 10), (Z.ltb_spec d' 10);
    rewrite !N_ascii_embedding in E by lia; lia.
Qed.

Lemma upper_append a b : upper (a +:+ b) = upper a +:+ upper b.
Proof.
  induction a as [|c a IH]; [reflexivity|].
  rewrite append_cons. simpl. rewrite append_cons. now rewrite IH.
Qed.

Lemma upper_hex_fixed n u : upper (hex_fixed n u) = HEX_fixed n u.
Proof.
  revert u. induction n as [|n IH]; intros u; [reflexivity|].
  cbn [hex_fixed HEX_fixed]. rewrite upper_append, IH. f_equal. simpl.
  f_equal. apply upper_hexdigit. apply Z.mod_pos_bound. lia.
Qed.

Lemma HEX_fixed_chars n u : string_forallb is_upper_hex (HEX_fixed n u) = true.
Proof.
  revert u. induction n as [|n IH]; intros u; [reflexivity|].
  cbn [HEX_fixed]. specialize (IH (u / 16)).
  assert (Hd : is_upper_hex (HEXdigit (u mod 16)) = true).
  { apply upper_hexdigit. apply Z.mod_pos_bound. lia. }
  induction (HEX_fixed n (u / 16)) as [|c s IHs].
  - simpl. now rewrite Hd.
  - rewrite append_cons. simpl in *. apply andb_true_iff in IH as [Hc Hs].
    rewrite Hc. now apply IHs.
Qed.

Lemma HEX_fixed_inj n a b :
  HEX_fixed n a = HEX_fixed n b <-> a mod 16 ^ Z.of_nat n = b mod 16 ^ Z.of_nat n.
Proof.
  revert a b. induction n as [|n IH]; intros a b.
  - simpl. rewrite !Z.mod_1_r. tauto.
  - cbn [HEX_fixed]. rewrite Nat2Z.inj_succ, Z.pow_succ_r by lia.
    assert (Hp : 0 < 16 ^ Z.of_nat n) by (apply Z.pow_pos_nonneg; lia).
    rewrite !Z.rem_mul_r by lia.
    pose proof (Z.mod_pos_bound a 16). pose proof (Z.mod_pos_bound b 16).
    pose proof (Z.mod_pos_bound (a / 16) _ Hp).
    pose proof (Z.mod_pos_bound (b / 16) _ Hp).
    split.
    + intros E. apply append_inj_length in E as [E1 E2];
        [|now rewrite !HEX_fixed_length].
      apply IH in E1. injection E2 as E2.
      apply HEXdigit_inj in E2; lia.
    + intros E.
      assert (E0 : a mod 16 = b mod 16) by lia.
      assert (E1 : (a / 16) mod 16 ^ Z.of_nat n = (b / 16) mod 16 ^ Z.of_nat n)
        by lia.
      apply IH in E1. now rewrite E0, E1.
Qed.

Lemma confirmation_of_HEX u : confirmation_of u = HEX_fixed 8 (u / 2 ^ 96).
Proof.
  unfold confirmation_of, uuid_hex.
  change 32%nat with (8 + 24)%nat. rewrite hex_fixed_split.
  rewrite <- (hex_fixed_length 8 (u / 16 ^ Z.of_nat 24)) at 1.
  rewrite substring_append_l. apply upper_hex_fixed.
Qed.

(** X1. A confirmation id is eight characters, each one of [0-9A-F]: the
    upper-case hex digits of the 32 high bits of the UUID drawn. *)
Theorem confirmation_of_format (u : Z) :
  confirmation_of u = HEX_fixed 8 (u / 2 ^ 96) /\
  String.length (confirmation_of u) = 8%nat /\
  string_forallb is_upper_hex (confirmation_of u) = true.
Proof.
  rewrite confirmation_of_HEX. split; [reflexivity|].
  split; [apply HEX_fixed_length | apply HEX_fixed_chars].
Qed.

(** X2. Two UUIDs get the same confirmation id exactly when their 32 high
    bits agree; the other 96 bits are not read. *)
Theorem confirmation_of_collision (u u' : Z) :
  confirmation_of u = confirmation_of u' <->
  (u / 2 ^ 96) mod 2 ^ 32 = (u' / 2 ^ 96) mod 2 ^ 32.
Proof.
  rewrite !confirmation_of_HEX. apply (HEX_fixed_inj 8).
Qed.

End TokenFacts.

(** ** The ledger over a run *)

Section LedgerFacts.

Variable uuid4 : nat -> Z.

Lemma run_lookup cs w (i : nat) b :
  BOOKINGS w !! i = Some b -> BOOKINGS (snd (run uuid4 cs w)) !! i = Some b.
Proof.
  revert w. induction cs as [|c cs IH]; intros w Hb; [exact Hb|].
  rewrite run_cons. cbn [snd]. apply IH.
  destruct (invoke_cases uuid4 c w)
    as [H|(n & p & j & r & s & _ & _ & _ & H)]; rewrite H; [exact Hb|].
  simpl. now apply lookup_app_l_Some.
Qed.

Lemma invoke_confirmation c w :
  map b_id (BOOKINGS (snd (invoke uuid4 c w))) =
  map b_id (BOOKINGS w) ++ confirmations [fst (invoke uuid4 c w)].
Proof.
  destruct c as [n|d|n p i r s]; simpl; unfold bind.
  - simpl. now rewrite app_nil_r.
  - pose proof (get_slots_world d w) as H.
    destruct (get_slots d w); simpl in *; subst. now rewrite app_nil_r.
  - destruct (decide (s ∈ catalog w)) as [Hin|Hn].
    + rewrite (create_booking_known uuid4 _ _ _ _ _ _ Hin); simpl.
      now rewrite map_app.
    + rewrite (create_booking_unknown uuid4 _ _ _ _ _ _ Hn); simpl.
      now rewrite app_nil_r.
Qed.

(** X3. A run keeps the ledger within the catalog: when every booking of
    the ledger references a start of the catalog before a run, every
    booking references one after it. *)
Theorem bookings_reference_catalog (cs : list call) (w : world) :
  Forall (fun b => b_slot_iso b ∈ catalog w) (BOOKINGS w) ->
  Forall (fun b => b_slot_iso b ∈ catalog w)
         (BOOKINGS (snd (run uuid4 cs w))).
Proof.
  revert w. induction cs as [|c cs IH]; intros w Hw; [exact Hw|].
  rewrite run_cons. cbn [snd].
  rewrite <- (invoke_catalog uuid4 c w). apply IH.
  rewrite invoke_catalog.
  destruct (invoke_cases uuid4 c w)
    as [H|(n & p & j & r & s & _ & Hin & _ & H)]; rewrite H; [exact Hw|].
  simpl. apply Forall_app. split; [exact Hw|].
  constructor; [exact Hin | constructor].
Qed.

(** X4. The confirmation that [create_booking] returns names a booking of
    the ledger: the entry appended holds that id and the five arguments as
    they were passed, and it is still in its place after any further
    calls. *)
Theorem confirmation_is_stored (name phone insurer reason slot_iso c : string)
    (w : world) (cs : list call) :
  fst (create_booking uuid4 name phone insurer reason slot_iso w) = Saved c ->
  let wl := snd (create_booking uuid4 name phone insurer reason slot_iso w) in
  BOOKINGS (snd (run uuid4 cs wl)) !! length (BOOKINGS w)
  = Some (mk_booking c name phone insurer reason slot_iso).
Proof.
  intros Hc wl. apply run_lookup. unfold wl. revert Hc.
  destruct (decide (slot_iso ∈ catalog w)) as [Hin|Hn].
  - rewrite (create_booking_known uuid4 _ _ _ _ _ _ Hin); simpl.
    intros [= <-]. now rewrite list_lookup_middle.
  - rewrite (create_booking_unknown uuid4 _ _ _ _ _ _ Hn). discriminate.
Qed.

(** X5. The ids that a run adds to the ledger are the confirmation ids
    that its replies hand out, in the same order: no id is handed out
    without a booking, and no booking is stored without its id being
    handed out. *)
Theorem confirmations_are_ledger_ids (cs : list call) (w : world) :
  map b_id (BOOKINGS (snd (run uuid4 cs w))) =
  map b_id (BOOKINGS w) ++ confirmations (fst (run uuid4 cs w)).
Proof.
  revert w. induction cs as [|c cs IH]; intros w.
  - simpl. now rewrite app_nil_r.
  - rewrite run_cons. cbn [fst snd]. rewrite IH, invoke_confirmation.
    rewrite <- app_assoc. f_equal.
    unfold confirmations. simpl.
    destruct (fst (invoke uuid4 c w)) as [a|sl|[c0|e]]; reflexivity.
Qed.

(** X6. Bookings never change what [get_slots] offers: after any run it
    returns the list it returned before, booked slots included. *)
Theorem offers_ignore_bookings (cs : list call) (w : world)
    (date_pref : option string) :
  fst (get_slots date_pref (snd (run uuid4 cs w))) =
  fst (get_slots date_pref w).
Proof. rewrite !get_slots_eq. cbn [fst]. now rewrite run_SLOTS. Qed.

End LedgerFacts.

(** ** Names with padding, and the shape of the offers *)

Section ReadFacts.

Lemma all_space_append l l' :
  all_space l = true -> all_space l' = true -> all_space (l +:+ l') = true.
Proof.
  intros Hl Hl'. induction l as [|c l IH]; [exact Hl'|].
  rewrite append_cons. simpl in *. apply andb_true_iff in Hl as [Hc Hl].
  rewrite Hc. now apply IH.
Qed.

Lemma strip_padding l n r :
  all_space l = true -> all_space r = true ->
  strip (l +:+ n +:+ r) = strip n.
Proof.
  intros Hl Hr. symmetry. apply trimmed_strip.
  destruct (strip_trimmed n) as (l0 & r0 & E & Hl0 & Hr0 & Hf & Hla).
  remember (strip n) as t eqn:Et. clear Et.
  exists (l +:+ l0), (r0 +:+ r). split.
  - rewrite E. now rewrite !append_assoc.
  - split; [now apply all_space_append|].
    split; [now apply all_space_append|]. split; assumption.
Qed.

(** X7. Padding a name with whitespace on either side never changes the
    answer of [check_insurance], and trimming twice is trimming once. *)
Theorem check_insurance_padding (l n r : string) (w : world) :
  all_space l = true -> all_space r = true ->
  check_insurance (l +:+ n +:+ r) w = check_insurance n w /\
  strip (strip n) = strip n.
Proof.
  intros Hl Hr. split.
  - unfold check_insurance. now rewrite strip_padding.
  - rewrite <- (strip_padding EmptyString (strip n) EmptyString) by reflexivity.
    change (EmptyString +:+ strip n +:+ EmptyString)
      with (strip n +:+ EmptyString).
    rewrite append_nil_r.
    destruct (strip_trimmed n) as (l0 & r0 & E & Hl0 & Hr0 & Hf & Hla).
    symmetry. apply trimmed_strip. exists EmptyString, EmptyString.
    rewrite append_nil_r. repeat split; assumption.
Qed.

Lemma filter_sublist {A} (f : A -> bool) (l : list A) :
  List.filter f l `sublist_of` l.
Proof.
  induction l as [|x l IH]; simpl; [constructor|].
  destruct (f x); now constructor.
Qed.

(** X8. Whatever the catalog and whatever string is passed as the
    preference, [get_slots] returns at most six slots, all of them slots of
    the catalog, in catalog order and without repeating a position. *)
Theorem get_slots_sublist (w : world) (date_pref : option string) :
  fst (get_slots date_pref w) `sublist_of` SLOTS w /\
  (length (fst (get_slots date_pref w)) <= 6)%nat.
Proof.
  rewrite get_slots_eq. cbn [fst].
  assert (H6 : firstn 6 (SLOTS w) `sublist_of` SLOTS w /\
               (length (firstn 6 (SLOTS w)) <= 6)%nat).
  { split; [apply sublist_take | rewrite length_take; lia]. }
  destruct date_pref as [d|]; [|exact H6].
  destruct (d =? EmptyString)%string; [exact H6|].
  destruct (List.filter _ _) as [|x l] eqn:E; [exact H6|].
  rewrite <- E. split.
  - transitivity (List.filter (fun s => startswith (start_iso s) d) (SLOTS w));
      [apply sublist_take | apply filter_sublist].
  - rewrite length_take. lia.
Qed.

End ReadFacts.

(** ** The generated catalog and its queries *)

Section CatalogFacts.

Lemma default_slots_closed now n_days slots :
  valid_datetime now -> _default_slots now n_days = Some slots ->
  exists ts, window now 0 (Z.to_nat n_days) ts /\ slots = flat_map block ts.
Proof.
  intros Vn H. unfold _default_slots in H.
  destruct (Z_le_gt_dec (toordinal now + Z.of_nat (0 + Z.to_nat n_days)) MAXORDINAL)
    as [Hle|Hgt].
  - destruct (slots_loop_seq now 0 (Z.to_nat n_days) [] Vn Hle) as (ts & Hw & Hs).
    rewrite Hs in H. injection H as <-. exists ts. auto.
  - destruct (Z.to_nat n_days) as [|k] eqn:E.
    + simpl in H. injection H as <-. exists []. split; [constructor | reflexivity].
    + rewrite slots_loop_overflow in H;
        [discriminate | exact Vn | discriminate | lia].
Qed.

Lemma window_add_days now n ts (d : nat) t :
  window now 0 n ts -> ts !! d = Some t ->
  (d < n)%nat /\ add_days now (S d) = Some t /\ valid_datetime t /\
  toordinal t = toordinal now + Z.of_nat d + 1.
Proof.
  intros Hw Ht.
  destruct (Forall2_lookup_r _ _ _ _ _ Hw Ht) as (i & Hi & Ha & Vt & Ot).
  apply lookup_seq in Hi as [-> Hlt]. simpl in *. auto.
Qed.

Lemma window_length now a n ts : window now a n ts -> length ts = n.
Proof. intros Hw. apply Forall2_length in Hw. now rewrite length_seq in Hw. Qed.

Lemma sorted_starts_distinct slots :
  StronglySorted slot_before slots -> NoDup (map start_iso slots).
Proof.
  induction 1 as [|x l Hs IH Hall]; simpl; constructor; [|exact IH].
  intros Hin. apply list_elem_of_fmap in Hin as (y & E & Hy).
  rewrite List.Forall_forall in Hall.
  apply list_elem_of_In in Hy. specialize (Hall y Hy).
  unfold slot_before, String.ltb in Hall. rewrite E, compare_refl in Hall.
  discriminate.
Qed.

(** X9. No two slots of a generated catalog have the same [start_iso]. *)
Theorem catalog_starts_distinct (now : datetime) (n_days : Z)
    (slots : list slot) :
  valid_datetime now -> _default_slots now n_days = Some slots ->
  NoDup (map start_iso slots).
Proof.
  intros Vn H. apply sorted_starts_distinct.
  eapply default_slots_sorted; eassumption.
Qed.

Lemma block_start_length s t : s ∈ block t -> String.length (start_iso s) = 19%nat.
Proof. intros H. apply block_elem in H as (hm & _ & ->). reflexivity. Qed.

(** X10. Every [start_iso] of a generated catalog has the nineteen
    characters of [YYYY-MM-DDTHH:MM:SS], so [create_booking] answers a
    [slot_iso] of any other length (a start without seconds, with a
    fraction, with a blank around it) with the error and leaves the state
    as it is. *)
Theorem other_length_is_rejected (uuid4 : nat -> Z) (now : datetime)
    (n_days : Z) (w : world) (name phone insurer reason slot_iso : string) :
  valid_datetime now -> _default_slots now n_days = Some (SLOTS w) ->
  String.length slot_iso <> 19%nat ->
  create_booking uuid4 name phone insurer reason slot_iso w
  = (Error "slot_unavailable", w).
Proof.
  intros Vn H Hlen. apply create_booking_unknown.
  destruct (default_slots_closed _ _ _ Vn H) as (ts & _ & E).
  unfold catalog. rewrite E. intros Hin.
  apply list_elem_of_fmap in Hin as (s & -> & Hs).
  apply list_elem_of_In, in_flat_map in Hs as (t & _ & Hs).
  apply list_elem_of_In, block_start_length in Hs. contradiction.
Qed.

(** X11. [_default_slots] returns a list exactly when [n_days] is not
    positive or the last day of the window is a date that a [datetime] can
    hold; for an [n_days] that is not positive the list is empty. *)
Theorem default_slots_returns (now : datetime) (n_days : Z) :
  valid_datetime now ->
  (is_Some (_default_slots now n_days) <->
   n_days <= 0 \/ toordinal now + n_days <= MAXORDINAL) /\
  (n_days <= 0 -> _default_slots now n_days = Some []).
Proof.
  intros Vn.
  assert (Hneg : n_days <= 0 -> _default_slots now n_days = Some []).
  { intros Hn. unfold _default_slots.
    replace (Z.to_nat n_days) with O by lia. reflexivity. }
  split; [|exact Hneg]. split.
  - intros [slots H].
    destruct (Z_le_gt_dec n_days 0) as [Hn|Hn]; [now left|]. right.
    destruct (Z_le_gt_dec (toordinal now + n_days) MAXORDINAL) as [Hle|Hgt];
      [exact Hle|].
    unfold _default_slots in H.
    rewrite slots_loop_overflow in H; [discriminate | exact Vn | lia | lia].
  - intros [Hn|Hle]; [rewrite (Hneg Hn); eauto|].
    destruct (Z_le_gt_dec n_days 0) as [Hn|Hn]; [rewrite (Hneg Hn); eauto|].
    unfold _default_slots.
    destruct (slots_loop_seq now 0 (Z.to_nat n_days) [] Vn) as (ts & _ & Hs);
      [lia|]. rewrite Hs. eauto.
Qed.

(** X12. A longer window only adds days: the catalog of [n] days is the
    beginning of the catalog of [m >= n] days generated at the same
    time. *)
Theorem catalog_extends (now : datetime) (n m : Z) (a b : list slot) :
  valid_datetime now ->
  _default_slots now n = Some a -> _default_slots now m = Some b ->
  n <= m ->
  a `prefix_of` b.
Proof.
  intros Vn Ha Hb Hnm.
  destruct (default_slots_closed _ _ _ Vn Ha) as (ts & Hw & ->).
  destruct (default_slots_closed _ _ _ Vn Hb) as (ts' & Hw' & ->).
  assert (E : ts = firstn (Z.to_nat n) ts').
  { apply list_eq. intros i.
    pose proof (window_length _ _ _ _ Hw) as Hl.
    pose proof (window_length _ _ _ _ Hw') as Hl'.
    destruct (decide (i < Z.to_nat n)%nat) as [Hi|Hi].
    - rewrite lookup_take_lt by exact Hi.
      destruct (lookup_lt_is_Some_2 ts i) as [t Ht]; [lia|].
      destruct (lookup_lt_is_Some_2 ts' i) as [t' Ht']; [lia|].
      rewrite Ht, Ht'.
      apply (window_add_days _ _ _ _ _ Hw) in Ht as (_ & Ht & _).
      apply (window_add_days _ _ _ _ _ Hw') in Ht' as (_ & Ht' & _).
      congruence.
    - rewrite lookup_take_ge by lia. apply lookup_ge_None. lia. }
  exists (flat_map block (skipn (Z.to_nat n) ts')).
  rewrite E, <- flat_map_app. now rewrite firstn_skipn.
Qed.

Lemma isodate_compare a b :
  valid_datetime a -> valid_datetime b ->
  String.compare (isodate a) (isodate b) = lex_compare (date_key a) (date_key b).
Proof.
  unfold valid_datetime, MINYEAR, MAXYEAR.
  intros (Hy & Hm & Hd & _) (Hy' & Hm' & Hd' & _).
  assert (Hdim : forall y m, 1 <= m <= 12 -> days_in_month y m <= 31).
  { intros y m Hr. unfold days_in_month.
    by_month Hr as E; rewrite E; simpl; destruct (is_leap y); simpl; lia. }
  pose proof (Hdim (year a) (month a) Hm).
  pose proof (Hdim (year b) (month b) Hm').
  unfold isodate, date_key. cbn [lex_compare].
  rewrite compare_append, pad4_compare by (reflexivity || lia).
  destruct (year a ?= year b); try reflexivity. rewrite compare_sep.
  rewrite compare_append, pad2_compare by (reflexivity || lia).
  destruct (month a ?= month b); try reflexivity. rewrite compare_sep.
  rewrite pad2_compare by lia.
  destruct (day a ?= day b); reflexivity.
Qed.

Lemma isodate_inj a b :
  valid_datetime a -> valid_datetime b -> isodate a = isodate b ->
  same_date a b.
Proof.
  intros Va Vb E. pose proof (isodate_compare a b Va Vb) as H.
  rewrite E, compare_refl in H. unfold date_key in H. cbn [lex_compare] in H.
  unfold same_date.
  destruct (Z.compare_spec (year a) (year b)); try discriminate H.
  destruct (Z.compare_spec (month a) (month b)); try discriminate H.
  destruct (Z.compare_spec (day a) (day b)); try discriminate H.
  auto.
Qed.

Lemma same_date_toordinal a b : same_date a b -> toordinal a = toordinal b.
Proof. intros (E1 & E2 & E3). unfold toordinal. now rewrite E1, E2, E3. Qed.

(** The slots of day [t'] that begin with the date of day [t]: all of
    them or none. *)
Lemma filter_block t t' :
  List.filter (fun s => startswith (start_iso s) (isodate t)) (block t') =
  if String.eqb (isodate t') (isodate t) then block t' else [].
Proof.
  assert (H : forall hm,
            startswith (isoformat (slot_start t' hm)) (isodate t) =
            String.eqb (isodate t') (isodate t)).
  { intros hm.
    exact (startswith_date (mk_slot (isoformat (slot_start t' hm)) 20)
                           (isodate t) eq_refl). }
  unfold block, daily. cbn [map List.filter start_iso]. rewrite !H.
  destruct (String.eqb (isodate t') (isodate t)); reflexivity.
Qed.

Lemma filter_flat_map {A B} (f : B -> bool) (g : A -> list B) l :
  List.filter f (flat_map g l) = flat_map (fun x => List.filter f (g x)) l.
Proof.
  induction l as [|x l IH]; [reflexivity|]. simpl.
  now rewrite List.filter_app, IH.
Qed.

Lemma filter_other_days t ts :
  valid_datetime t ->
  Forall (fun x => valid_datetime x /\ toordinal x <> toordinal t) ts ->
  flat_map (fun x => List.filter
                       (fun s => startswith (start_iso s) (isodate t))
                       (block x)) ts = [].
Proof.
  intros Vt. induction 1 as [|x l [Vx Hx] Hl IH]; [reflexivity|].
  cbn [flat_map]. rewrite IH, filter_block.
  destruct (String.eqb_spec (isodate x) (isodate t)) as [E|_]; [|reflexivity].
  apply isodate_inj, same_date_toordinal in E; [contradiction | assumption..].
Qed.

(** X13. On a generated catalog, asking for the date of any day of the
    window returns the three slots of that day and nothing else, in the
    order of the times of day. *)
Theorem date_query_returns_the_day (now : datetime) (n_days : Z) (w : world)
    (d : nat) :
  valid_datetime now -> _default_slots now n_days = Some (SLOTS w) ->
  (d < Z.to_nat n_days)%nat ->
  exists t,
    add_days now (S d) = Some t /\
    fst (get_slots (Some (isodate t)) w) =
      [mk_slot (isoformat (slot_start t (10, 0))) 20;
       mk_slot (isoformat (slot_start t (14, 30))) 20;
       mk_slot (isoformat (slot_start t (16, 0))) 20].
Proof.
  intros Vn H Hd.
  destruct (default_slots_closed _ _ _ Vn H) as (ts & Hw & E).
  pose proof (window_length _ _ _ _ Hw) as Hl.
  destruct (lookup_lt_is_Some_2 ts d) as [t Ht]; [lia|].
  destruct (window_add_days _ _ _ _ _ Hw Ht) as (_ & Ha & Vt & Ot).
  exists t. split; [exact Ha|].
  destruct (window_sorted _ _ _ _ Hw) as [Hv Hs].
  rewrite <- (take_drop_middle ts d t Ht) in Hs, Hv, E.
  apply StronglySorted_app in Hs as (Hlt & _ & Hs).
  apply StronglySorted_cons in Hs as [Hgt _].
  apply Forall_app in Hv as [Hv1 Hv2]. apply Forall_cons in Hv2 as [_ Hv2].
  assert (H1 : Forall (fun x => valid_datetime x /\ toordinal x <> toordinal t)
                      (take d ts)).
  { apply Forall_forall. intros x Hx. split.
    - rewrite Forall_forall in Hv1. now apply Hv1.
    - specialize (Hlt x t Hx). assert (t ∈ t :: drop (S d) ts) by constructor.
      specialize (Hlt H0). lia. }
  assert (H2 : Forall (fun x => valid_datetime x /\ toordinal x <> toordinal t)
                      (drop (S d) ts)).
  { apply Forall_forall. intros x Hx. split.
    - rewrite Forall_forall in Hv2. now apply Hv2.
    - rewrite Forall_forall in Hgt. specialize (Hgt x Hx). lia. }
  rewrite get_slots_eq. cbn [fst]. rewrite E.
  change (String.eqb (isodate t) EmptyString) with false. cbv iota.
  rewrite filter_flat_map, flat_map_app. cbn [flat_map].
  rewrite (filter_other_days t _ Vt H1), (filter_other_days t _ Vt H2).
  rewrite filter_block, String.eqb_refl, app_nil_r. reflexivity.
Qed.

(** X14. On a generated catalog of two days or more, a query without a
    preference returns the three slots of tomorrow followed by the three
    slots of the day after, and never a slot of a later day. *)
Theorem no_preference_offers_two_days (now : datetime) (n_days : Z)
    (w : world) :
  valid_datetime now -> _default_slots now n_days = Some (SLOTS w) ->
  2 <= n_days ->
  exists t1 t2,
    add_days now 1 = Some t1 /\ add_days now 2 = Some t2 /\
    fst (get_slots None w) = block t1 ++ block t2.
Proof.
  intros Vn H Hn.
  destruct (default_slots_closed _ _ _ Vn H) as (ts & Hw & E).
  pose proof (window_length _ _ _ _ Hw) as Hl.
  destruct ts as [|t1 [|t2 ts]]; simpl in Hl; try lia.
  destruct (window_add_days _ _ _ 0 t1 Hw eq_refl) as (_ & H1 & _).
  destruct (window_add_days _ _ _ 1 t2 Hw eq_refl) as (_ & H2 & _).
  exists t1, t2. split; [exact H1|]. split; [exact H2|].
  rewrite get_slots_eq. cbn [fst]. rewrite E. reflexivity.
Qed.

End CatalogFacts.

(** ** ISO strings and time *)

Section OrderFacts.

Lemma lex_compare_Eq a b :
  length a = length b -> lex_compare a b = Eq -> a = b.
Proof.
  revert b. induction a as [|x a IH]; intros [|y b] Hl H;
    try discriminate Hl; [reflexivity|].
  simpl in H. destruct (Z.compare_spec x y) as [->|_|_]; try discriminate H.
  injection Hl as Hl. now rewrite (IH b Hl H).
Qed.

(** X15. For the datetimes that [_default_slots] formats (whole seconds),
    the ISO strings compare as Python compares [str] values exactly as the
    datetimes compare, and two of them are equal only for the same
    datetime: [start_iso] identifies and orders the start. *)
Theorem isoformat_orders_by_time (a b : datetime) :
  valid_datetime a -> valid_datetime b ->
  microsecond a = 0 -> microsecond b = 0 ->
  (String.ltb (isoformat a) (isoformat b) = true <-> dt_lt a b) /\
  (isoformat a = isoformat b <-> a = b).
Proof.
  intros Va Vb Ea Eb.
  pose proof (isoformat_compare a b Va Vb Ea Eb) as H. split.
  - rewrite <- dt_ltb_spec. unfold dt_ltb.
    rewrite <- (lex_compare_Lt (dt_key a) (dt_key b)) by reflexivity.
    unfold String.ltb. rewrite H.
    destruct (lex_compare (dt_key a) (dt_key b)); split;
      (reflexivity || discriminate).
  - split; [|now intros ->].
    intros E. rewrite E, compare_refl in H. symmetry in H.
    apply lex_compare_Eq in H; [|reflexivity].
    destruct a, b. unfold dt_key in H. simpl in H. congruence.
Qed.

End OrderFacts.

(** * The further properties on sample data *)

Lemma bookings_reference_catalog_witness :
  Forall (fun b => b_slot_iso b ∈ catalog w0)
         (BOOKINGS (snd (run fresh_source sample_calls w0))).
Proof.
  apply (bookings_reference_catalog fresh_source sample_calls w0).
  constructor.
Defined.

Lemma confirmation_is_stored_witness :
  BOOKINGS (snd (run fresh_source sample_calls
                   (snd (create_booking fresh_source "Di Fox" "5550103"
                           "Medicare" "checkup" slot_b w0))))
    !! length (BOOKINGS w0)
  = Some (mk_booking "3FA9C1D2" "Di Fox" "5550103" "Medicare" "checkup" slot_b).
Proof.
  apply (confirmation_is_stored fresh_source "Di Fox" "5550103" "Medicare"
           "checkup" slot_b "3FA9C1D2" w0 sample_calls).
  vm_compute. reflexivity.
Defined.

Lemma check_insurance_padding_witness :
  check_insurance (String "009" " " +:+ "Blue Cross" +:+ String " " (String "010" EmptyString)) w0
  = check_insurance "Blue Cross" w0 /\
  strip (strip "Blue Cross") = strip "Blue Cross".
Proof.
  apply (check_insurance_padding (String "009" " ") "Blue Cross"
           (String " " (String "010" EmptyString)) w0); reflexivity.
Defined.

Lemma catalog_starts_distinct_witness : NoDup (map start_iso SLOTS0).
Proof.
  apply (catalog_starts_distinct now0 3 SLOTS0).
  - apply valid_datetimeb_spec. reflexivity.
  - reflexivity.
Defined.

Lemma other_length_is_rejected_witness :
  create_booking fresh_source "Bo Ray" "5550101" "Aetna" "rash"
    "2025-06-10T10:00" w0
  = (Error "slot_unavailable", w0).
Proof.
  apply (other_length_is_rejected fresh_source now0 3 w0).
  - apply valid_datetimeb_spec. reflexivity.
  - reflexivity.
  - vm_compute. discriminate.
Defined.

Lemma default_slots_returns_witness :
  (is_Some (_default_slots now0 3) <->
   3 <= 0 \/ toordinal now0 + 3 <= MAXORDINAL) /\
  (3 <= 0 -> _default_slots now0 3 = Some []).
Proof.
  apply (default_slots_returns now0 3).
  apply valid_datetimeb_spec. reflexivity.
Defined.

Lemma catalog_extends_witness :
  default [] (_default_slots now0 2) `prefix_of` SLOTS0.
Proof.
  apply (catalog_extends now0 2 3).
  - apply valid_datetimeb_spec. reflexivity.
  - reflexivity.
  - reflexivity.
  - lia.
Defined.

Lemma date_query_returns_the_day_witness :
  exists t,
    add_days now0 2 = Some t /\
    fst (get_slots (Some (isodate t)) w0) =
      [mk_slot (isoformat (slot_start t (10, 0))) 20;
       mk_slot (isoformat (slot_start t (14, 30))) 20;
       mk_slot (isoformat (slot_start t (16, 0))) 20].
Proof.
  apply (date_query_returns_the_day now0 3 w0 1).
  - apply valid_datetimeb_spec. reflexivity.
  - reflexivity.
  - simpl. lia.
Defined.

Lemma no_preference_offers_two_days_witness :
  exists t1 t2,
    add_days now0 1 = Some t1 /\ add_days now0 2 = Some t2 /\
    fst (get_slots None w0) = block t1 ++ block t2.
Proof.
  apply (no_preference_offers_two_days now0 3 w0).
  - apply valid_datetimeb_spec. reflexivity.
  - reflexivity.
  - lia.
Defined.

Lemma isoformat_orders_by_time_witness :
  let a := mk_datetime 2025 6 10 16 0 0 0 in
  let b := mk_datetime 2025 6 11 10 0 0 0 in
  (String.ltb (isoformat a) (isoformat b) = true <-> dt_lt a b) /\
  (isoformat a = isoformat b <-> a = b).
Proof.
  apply (isoformat_orders_by_time (mk_datetime 2025 6 10 16 0 0 0)
           (mk_datetime 2025 6 11 10 0 0 0)).
  - apply valid_datetimeb_spec. reflexivity.
  - apply valid_datetimeb_spec. reflexivity.
  - reflexivity.
  - reflexivity.
Defined.
